(** * nestjs-zod-config: validated configuration loading

    A shallow embedding of [src/config/config.schema.ts],
    [src/config/config.factory.ts] and [src/config/config.service.ts],
    together with the part of the zod (v3) runtime and of the ECMAScript
    built-ins ([Number], [JSON.stringify]) those files call: the classes
    [ZodString], [ZodNumber], [ZodEnum] and [ZodObject] with their [_parse],
    the parse context and its issues, the English error map, [safeParse] and
    [ZodError.message].

    Conventions.
    - A JavaScript string is a [string]; its characters stand for code units
      in the range 0..255, which covers every literal of the sources.
    - A JavaScript number is an IEEE 754 binary64 value, [spec_float] with
      precision 53 and maximal exponent 1024.
    - [process.env] is a finite map from variable names to strings; reading a
      variable that is not set gives [undefined]. *)

From Stdlib Require Import ZArith Ascii String List Bool Lia.
From Stdlib Require Import Floats.SpecFloat DecimalString.
From stdpp Require Import base option list strings gmap.

Set Warnings "-register-all".

Local Open Scope Z_scope.

(** ** ECMAScript numbers and the [Number] conversion *)

Module Js.

Definition number := spec_float.

Definition prec : Z := 53.
Definition emax : Z := 1024.

Definition NaN : number := S754_nan.
Definition Infinity : number := S754_infinity false.

(** The number denoted by an integer literal of the source text. *)
Definition of_Z (n : Z) : number := binary_normalize prec emax n 0 false.
#[global] Arguments of_Z : simpl never.

(** A finite number [m * 2 ^ e], as the integer [m * 2 ^ (e - k)], for [k]
    at most [e]; a zero as 0. *)
Definition scaled (k : Z) (x : number) : Z :=
  match x with
  | S754_finite s m e => (if s then Zneg m else Zpos m) * 2 ^ (e - k)
  | _ => 0
  end.

Definition exponent (x : number) : Z :=
  match x with
  | S754_finite _ _ e => e
  | _ => 0
  end.

(** Comparison of the mathematical values; none when a side is NaN. *)
Definition compare (a b : number) : option comparison :=
  match a, b with
  | S754_nan, _ | _, S754_nan => None
  | S754_infinity s1, S754_infinity s2 =>
      Some (if s1 then if s2 then Eq else Lt else if s2 then Gt else Eq)
  | S754_infinity s, _ => Some (if s then Lt else Gt)
  | _, S754_infinity s => Some (if s then Gt else Lt)
  | _, _ =>
      let k := Z.min (exponent a) (exponent b) in
      Some (scaled k a ?= scaled k b)
  end.

(** [a < b] and [a <= b] on numbers; both are false when a side is NaN. *)
Definition lt (a b : number) : bool :=
  match compare a b with
  | Some Lt => true
  | _ => false
  end.

Definition le (a b : number) : bool :=
  match compare a b with
  | Some (Lt | Eq) => true
  | _ => false
  end.

Definition isNaN (x : number) : bool :=
  match x with S754_nan => true | _ => false end.

(** [Number.isInteger]. *)
Definition isInteger (x : number) : bool :=
  match x with
  | S754_zero _ => true
  | S754_finite _ m e =>
      if 0 <=? e then true else Zpos m mod 2 ^ (- e) =? 0
  | S754_infinity _ | S754_nan => false
  end.

(** *** StringToNumber (ECMA-262, 7.1.4.1.1) *)

(** White space and line terminators among the code units below 256: TAB,
    LF, VT, FF, CR, SP and NBSP. *)
Definition is_StrWhiteSpaceChar (c : ascii) : bool :=
  let n := Z.of_N (N_of_ascii c) in
  ((9 <=? n) && (n <=? 13)) || (n =? 32) || (n =? 160).

Fixpoint drop_ws (l : list ascii) : list ascii :=
  match l with
  | c :: r => if is_StrWhiteSpaceChar c then drop_ws r else l
  | [] => []
  end.

Definition StringTrim (l : list ascii) : list ascii :=
  rev (drop_ws (rev (drop_ws l))).

(** Value of a digit in the given radix, if the character is one. *)
Definition digit_of (radix : Z) (c : ascii) : option Z :=
  let n := Z.of_N (N_of_ascii c) in
  let d :=
    if (48 <=? n) && (n <=? 57) then n - 48
    else if (97 <=? n) && (n <=? 102) then n - 87
    else if (65 <=? n) && (n <=? 70) then n - 55
    else 16 in
  if d <? radix then Some d else None.

(** Longest prefix of digits, as a list of digit values, and the rest. *)
Fixpoint span_digits (radix : Z) (l : list ascii) : list Z * list ascii :=
  match l with
  | c :: r =>
      match digit_of radix c with
      | Some d => let '(ds, rest) := span_digits radix r in (d :: ds, rest)
      | None => ([], l)
      end
  | [] => ([], [])
  end.

Definition digits_value (radix : Z) (ds : list Z) : Z :=
  fold_left (fun acc d => acc * radix + d) ds 0.

(** Mathematical value of a StrNumericLiteral: an infinity, or
    [mantissa * 10 ^ exponent] with a sign (kept apart for [-0]). *)
Inductive MV :=
| MV_infinity (neg : bool)
| MV_decimal (neg : bool) (mantissa exponent : Z).

Definition parse_sign (l : list ascii) : bool * list ascii :=
  match l with
  | "+"%char :: r => (false, r)
  | "-"%char :: r => (true, r)
  | _ => (false, l)
  end.

(** ExponentPart, optional; the input must end after it. *)
Definition parse_ExponentPart (l : list ascii) : option Z :=
  match l with
  | [] => Some 0
  | c :: r =>
      if (Ascii.eqb c "e" || Ascii.eqb c "E")%bool then
        let '(neg, r') := parse_sign r in
        match span_digits 10 r' with
        | ((_ :: _) as ds, []) =>
            let e := digits_value 10 ds in Some (if neg then - e else e)
        | _ => None
        end
      else None
  end.

Definition parse_StrUnsignedDecimalLiteral (neg : bool) (l : list ascii)
  : option MV :=
  if String.eqb (string_of_list_ascii l) "Infinity" then Some (MV_infinity neg)
  else
    let '(ip, r1) := span_digits 10 l in
    let '(fp, r2) :=
      match r1 with
      | "."%char :: r => span_digits 10 r
      | _ => ([], r1)
      end in
    match ip ++ fp with
    | [] => None
    | ds =>
        match parse_ExponentPart r2 with
        | Some e =>
            Some (MV_decimal neg (digits_value 10 ds) (e - Z.of_nat (length fp)))
        | None => None
        end
    end.

Definition parse_NonDecimalIntegerLiteral (radix : Z) (l : list ascii)
  : option MV :=
  match span_digits radix l with
  | ((_ :: _) as ds, []) => Some (MV_decimal false (digits_value radix ds) 0)
  | _ => None
  end.

Definition parse_StrNumericLiteral (l : list ascii) : option MV :=
  match l with
  | [] => Some (MV_decimal false 0 0)
  | "0"%char :: c :: r =>
      if (Ascii.eqb c "x" || Ascii.eqb c "X")%bool
      then parse_NonDecimalIntegerLiteral 16 r
      else if (Ascii.eqb c "o" || Ascii.eqb c "O")%bool
      then parse_NonDecimalIntegerLiteral 8 r
      else if (Ascii.eqb c "b" || Ascii.eqb c "B")%bool
      then parse_NonDecimalIntegerLiteral 2 r
      else parse_StrUnsignedDecimalLiteral false l
  | _ => let '(neg, r) := parse_sign l in parse_StrUnsignedDecimalLiteral neg r
  end.

(** Rounding of [m * 10 ^ e] (with [0 <= m]) to the nearest binary64 value,
    ties to even. Values beyond [2 ^ 1100] round to an infinity and values
    below [2 ^ -1100] to a zero, which keeps the powers of ten small. *)
Definition round_decimal (neg : bool) (m e : Z) : number :=
  if m <=? 0 then S754_zero neg
  else if 0 <=? e then
    if 1100 <? Z.log2 m + 3 * e then S754_infinity neg
    else binary_normalize prec emax ((if neg then - m else m) * 10 ^ e) 0 neg
  else
    if Z.log2 m + 1 + 3 * e <? - 1100 then S754_zero neg
    else
      let '(q, e', l) := SFdiv_core_binary prec emax m 0 (10 ^ (- e)) 0 in
      binary_round_aux prec emax neg q e' l.

Definition RoundMVResult (v : MV) : number :=
  match v with
  | MV_infinity neg => S754_infinity neg
  | MV_decimal neg m e => round_decimal neg m e
  end.

Definition StringToNumber (s : string) : number :=
  match parse_StrNumericLiteral (StringTrim (list_ascii_of_string s)) with
  | Some v => RoundMVResult v
  | None => NaN
  end.

End Js.

(** ** JavaScript values *)

(** The values configuration data is made of: what [process.env.X] gives
    (a string or [undefined]), coerced numbers, and plain objects with their
    properties in insertion order. *)
Inductive value :=
| VUndefined
| VString (s : string)
| VNumber (n : Js.number)
| VObject (props : list (string * value)).

(** [process.env.X]. *)
Definition of_env (o : option string) : value :=
  match o with
  | Some s => VString s
  | None => VUndefined
  end.

(** [obj[key]]: the property's value, [undefined] when there is none. *)
Fixpoint get_prop {A} (dflt : A) (props : list (string * A)) (key : string) : A :=
  match props with
  | (k, v) :: rest => if String.eqb k key then v else get_prop dflt rest key
  | [] => dflt
  end.

(** [obj[key] = v]: overwrite in place, or add as the last property. *)
Fixpoint set_prop {A} (props : list (string * A)) (key : string) (v : A)
  : list (string * A) :=
  match props with
  | (k, w) :: rest =>
      if String.eqb k key then (k, v) :: rest
      else (k, w) :: set_prop rest key v
  | [] => [(key, v)]
  end.

(** [Number(v)]. A plain object converts through ["[object Object]"]. *)
Definition Number (v : value) : Js.number :=
  match v with
  | VUndefined => Js.NaN
  | VString s => Js.StringToNumber s
  | VNumber n => n
  | VObject _ => Js.NaN
  end.

(** ** JSON.stringify with a two-space indent *)

Module Json.

(** What a zod issue is made of. Numbers in issues are the integer literals
    of the schema, so they are kept as integers. *)
Inductive json :=
| JUndefined
| JBool (b : bool)
| JNum (n : Z)
| JStr (s : string)
| JArr (items : list json)
| JObj (props : list (string * json)).

Definition dquote : string := String (ascii_of_N 34) EmptyString.

Definition hex_digit (n : N) : ascii :=
  ascii_of_N (if (n <? 10)%N then 48 + n else 87 + n).

(** One code unit inside a JSON string literal (QuoteJSONString). *)
Definition quote_char (c : ascii) : string :=
  let n := N_of_ascii c in
  if (n =? 8)%N then "\b"
  else if (n =? 9)%N then "\t"
  else if (n =? 10)%N then "\n"
  else if (n =? 12)%N then "\f"
  else if (n =? 13)%N then "\r"
  else if (n =? 34)%N then "\" +:+ dquote
  else if (n =? 92)%N then "\\"
  else if (n <? 32)%N then
    "\u00" +:+ String (hex_digit (n / 16)) (String (hex_digit (n mod 16)) EmptyString)
  else String c EmptyString.

Fixpoint quote_chars (s : string) : string :=
  match s with
  | EmptyString => EmptyString
  | String c r => quote_char c +:+ quote_chars r
  end.

Definition QuoteJSONString (s : string) : string :=
  dquote +:+ quote_chars s +:+ dquote.

(** Decimal text of an integer ([Number::toString] on a safe integer). *)
Definition Z_to_string (n : Z) : string :=
  NilZero.string_of_int (Z.to_int n).

Definition newline : string := String (ascii_of_N 10) EmptyString.

(** [sep]-joined concatenation ([Array.prototype.join]). *)
Fixpoint join (sep : string) (l : list string) : string :=
  match l with
  | [] => EmptyString
  | [x] => x
  | x :: rest => x +:+ sep +:+ join sep rest
  end.

(** SerializeJSONProperty at the current indentation [indent], with gap
    ["  "]. [None] stands for [undefined]: such an array element is written
    [null] and such a property is left out. *)
Fixpoint serialize (indent : string) (j : json) : option string :=
  let stepback := indent in
  let indent := indent +:+ "  " in
  let separator := "," +:+ newline +:+ indent in
  match j with
  | JUndefined => None
  | JBool b => Some (if b then "true" else "false")
  | JNum n => Some (Z_to_string n)
  | JStr s => Some (QuoteJSONString s)
  | JArr items =>
      let partial :=
        (fix elements (l : list json) : list string :=
           match l with
           | [] => []
           | x :: rest =>
               match serialize indent x with
               | Some t => t
               | None => "null"
               end :: elements rest
           end) items in
      match partial with
      | [] => Some "[]"
      | _ =>
          Some ("[" +:+ newline +:+ indent +:+ join separator partial
                +:+ newline +:+ stepback +:+ "]")
      end
  | JObj props =>
      let partial :=
        (fix members (l : list (string * json)) : list string :=
           match l with
           | [] => []
           | (k, x) :: rest =>
               match serialize indent x with
               | Some t => (QuoteJSONString k +:+ ": " +:+ t) :: members rest
               | None => members rest
               end
           end) props in
      match partial with
      | [] => Some "{}"
      | _ =>
          Some ("{" +:+ newline +:+ indent +:+ join separator partial
                +:+ newline +:+ stepback +:+ "}")
      end
  end.

(** [JSON.stringify(j, replacer, 2)] for a replacer that leaves every value
    of [json] as it is. *)
Definition stringify (j : json) : option string := serialize EmptyString j.

End Json.

(** ** The zod runtime (v3) used by the schema *)

Module Zod.
Import Json.

(** *** Parsed types ([util.getParsedType]) *)

Inductive ZodParsedType :=
| t_string | t_nan | t_number | t_undefined | t_object.

Definition ZodParsedType_name (t : ZodParsedType) : string :=
  match t with
  | t_string => "string"
  | t_nan => "nan"
  | t_number => "number"
  | t_undefined => "undefined"
  | t_object => "object"
  end.

Definition getParsedType (data : value) : ZodParsedType :=
  match data with
  | VUndefined => t_undefined
  | VString _ => t_string
  | VNumber n => if Js.isNaN n then t_nan else t_number
  | VObject _ => t_object
  end.

(** *** Issues and the default error map *)

(** An issue is a plain object; its properties keep the order in which the
    library writes them, which is the order [JSON.stringify] prints. *)
Definition ZodIssue := list (string * json).

(** [`${j}`] for the values an issue holds. *)
Fixpoint ToString (j : json) : string :=
  match j with
  | JUndefined => "undefined"
  | JBool b => if b then "true" else "false"
  | JNum n => Z_to_string n
  | JStr s => s
  | JArr items =>
      join ","
        ((fix elements (l : list json) : list string :=
            match l with
            | [] => []
            | JUndefined :: rest => EmptyString :: elements rest
            | x :: rest => ToString x :: elements rest
            end) items)
  | JObj _ => "[object Object]"
  end.

(** Truthiness, as tested by [c ? a : b]. *)
Definition ToBoolean (j : json) : bool :=
  match j with
  | JUndefined => false
  | JBool b => b
  | JNum n => negb (n =? 0)
  | JStr s => negb (String.eqb s EmptyString)
  | JArr _ | JObj _ => true
  end.

(** [util.joinValues(values)] on an array of strings. *)
Definition joinValues (values : list json) : string :=
  join " | " (map (fun v => match v with
                            | JStr s => "'" +:+ s +:+ "'"
                            | _ => ToString v
                            end) values).

Definition is_str (j : json) (s : string) : bool :=
  match j with
  | JStr t => String.eqb t s
  | _ => false
  end.

(** The English error map ([locales/en]), for the issue codes and the
    [too_small] types that strings, numbers, enums and objects raise. *)
Definition errorMap (issue : ZodIssue) : string :=
  let prop := get_prop JUndefined issue in
  if is_str (prop "code") "invalid_type" then
    if is_str (prop "received") "undefined" then "Required"
    else "Expected " +:+ ToString (prop "expected")
         +:+ ", received " +:+ ToString (prop "received")
  else if is_str (prop "code") "invalid_enum_value" then
    "Invalid enum value. Expected "
    +:+ joinValues (match prop "options" with JArr l => l | _ => [] end)
    +:+ ", received '" +:+ ToString (prop "received") +:+ "'"
  else if is_str (prop "code") "too_small" then
    if is_str (prop "type") "string" then
      "String must contain "
      +:+ (if ToBoolean (prop "exact") then "exactly"
           else if ToBoolean (prop "inclusive") then "at least" else "over")
      +:+ " " +:+ ToString (prop "minimum") +:+ " character(s)"
    else if is_str (prop "type") "number" then
      "Number must be "
      +:+ (if ToBoolean (prop "exact") then "exactly equal to "
           else if ToBoolean (prop "inclusive")
                then "greater than or equal to " else "greater than ")
      +:+ ToString (prop "minimum")
    else "Invalid input"
  else EmptyString.

(** [makeIssue]: [{ ...issueData, path: fullPath, message }], the message
    being the issue's own when it has one and the error map's otherwise. *)
Definition makeIssue (path : list string) (issueData : ZodIssue) : ZodIssue :=
  let fullPath :=
    JArr (map JStr path ++
          match get_prop JUndefined issueData "path" with
          | JArr l => l
          | _ => []
          end) in
  let fullIssue := set_prop issueData "path" fullPath in
  match get_prop JUndefined issueData "message" with
  | JUndefined => set_prop fullIssue "message" (JStr (errorMap fullIssue))
  | m => set_prop fullIssue "message" m
  end.

(** *** The parse context: issues pushed so far *)

Definition Parse (A : Type) : Type := list ZodIssue -> A * list ZodIssue.

Definition ret {A} (a : A) : Parse A := fun issues => (a, issues).

Definition bind {A B} (m : Parse A) (k : A -> Parse B) : Parse B :=
  fun issues => let '(a, issues') := m issues in k a issues'.

Notation "'do' x <- m ; k" := (bind m (fun x => k))
  (at level 10, x name, m at level 100, k at level 200).
Notation "m ;; k" := (bind m (fun _ => k))
  (at level 100, k at level 200, right associativity).

(** [addIssueToContext(ctx, issueData)], for a context at [path]. *)
Definition addIssueToContext (path : list string) (issueData : ZodIssue)
  : Parse unit :=
  fun issues => (tt, issues ++ [makeIssue path issueData]).

(** [INVALID], [DIRTY(value)] and [OK(value)]. *)
Inductive ParseReturnType :=
| INVALID
| DIRTY (v : value)
| OK (v : value).

(** [ParseStatus]: valid until [dirty()] is called. *)
Definition finish (dirty : bool) (v : value) : ParseReturnType :=
  if dirty then DIRTY v else OK v.

Definition opt_json (m : option string) : json :=
  match m with
  | Some s => JStr s
  | None => JUndefined
  end.

(** *** Schemas *)

(** A check of a string schema: [{ kind: "min", value, message }]. *)
Inductive ZodStringCheck :=
| str_min (value : Z) (message : option string).

(** A check of a number schema: [{ kind: "min", value, inclusive, message }]
    or [{ kind: "int", message }]. *)
Inductive ZodNumberCheck :=
| num_min (value : Z) (inclusive : bool) (message : option string)
| num_int (message : option string).

(** The schema classes of the repository: [z.string()] (never coerced
    here), [z.number()] with its [coerce] flag, [z.enum([...])] and
    [z.object({...})] with its shape in key order. *)
Inductive ZodType :=
| ZodString (checks : list ZodStringCheck)
| ZodNumber (coerce : bool) (checks : list ZodNumberCheck)
| ZodEnum (values : list string)
| ZodObject (shape : list (string * ZodType)).

(** [schema.min(n)]: on strings a length bound, on numbers [gte(n)];
    [schema.positive()] is an exclusive minimum of 0; a schema of another
    class has no such method and is left as it is. *)
Definition min (value : Z) (schema : ZodType) : ZodType :=
  match schema with
  | ZodString checks => ZodString (checks ++ [str_min value None])
  | ZodNumber coerce checks =>
      ZodNumber coerce (checks ++ [num_min value true None])
  | _ => schema
  end.

Definition positive (schema : ZodType) : ZodType :=
  match schema with
  | ZodNumber coerce checks =>
      ZodNumber coerce (checks ++ [num_min 0 false None])
  | _ => schema
  end.

Definition int (schema : ZodType) : ZodType :=
  match schema with
  | ZodNumber coerce checks => ZodNumber coerce (checks ++ [num_int None])
  | _ => schema
  end.

(** *** Parsing *)

(** [s.length]. *)
Definition length_of (s : string) : Z := Z.of_nat (String.length s).

(** The loop of [ZodString._parse] over the checks: every check that fails
    adds its issue and marks the status dirty. *)
Fixpoint ZodString_checks (path : list string) (data : string)
  (checks : list ZodStringCheck) (dirty : bool) : Parse bool :=
  match checks with
  | [] => ret dirty
  | str_min value message :: rest =>
      if length_of data <? value then
        addIssueToContext path
          [("code", JStr "too_small"); ("minimum", JNum value);
           ("type", JStr "string"); ("inclusive", JBool true);
           ("exact", JBool false); ("message", opt_json message)] ;;
        ZodString_checks path data rest true
      else ZodString_checks path data rest dirty
  end.

(** [ZodString._parse]: a value that is not a string is invalid. *)
Definition ZodString_parse (checks : list ZodStringCheck)
  (path : list string) (data : value) : Parse ParseReturnType :=
  match data with
  | VString s =>
      do dirty <- ZodString_checks path s checks false;
      ret (finish dirty data)
  | _ =>
      addIssueToContext path
        [("code", JStr "invalid_type"); ("expected", JStr "string");
         ("received", JStr (ZodParsedType_name (getParsedType data)))] ;;
      ret INVALID
  end.

(** The loop of [ZodNumber._parse] over the checks, [util.isInteger] being
    [Number.isInteger]. *)
Fixpoint ZodNumber_checks (path : list string) (data : Js.number)
  (checks : list ZodNumberCheck) (dirty : bool) : Parse bool :=
  match checks with
  | [] => ret dirty
  | num_int message :: rest =>
      if negb (Js.isInteger data) then
        addIssueToContext path
          [("code", JStr "invalid_type"); ("expected", JStr "integer");
           ("received", JStr "float"); ("message", opt_json message)] ;;
        ZodNumber_checks path data rest true
      else ZodNumber_checks path data rest dirty
  | num_min value inclusive message :: rest =>
      let tooSmall :=
        if inclusive then Js.lt data (Js.of_Z value)
        else Js.le data (Js.of_Z value) in
      if tooSmall then
        addIssueToContext path
          [("code", JStr "too_small"); ("minimum", JNum value);
           ("type", JStr "number"); ("inclusive", JBool inclusive);
           ("exact", JBool false); ("message", opt_json message)] ;;
        ZodNumber_checks path data rest true
      else ZodNumber_checks path data rest dirty
  end.

(** [ZodNumber._parse]: with [coerce] the input is replaced by [Number] of
    it; a value whose parsed type is not [number], NaN included, is
    invalid. *)
Definition ZodNumber_parse (coerce : bool) (checks : list ZodNumberCheck)
  (path : list string) (data : value) : Parse ParseReturnType :=
  let data := if coerce then VNumber (Number data) else data in
  match getParsedType data, data with
  | t_number, VNumber n =>
      do dirty <- ZodNumber_checks path n checks false;
      ret (finish dirty data)
  | _, _ =>
      addIssueToContext path
        [("code", JStr "invalid_type"); ("expected", JStr "number");
         ("received", JStr (ZodParsedType_name (getParsedType data)))] ;;
      ret INVALID
  end.

(** [ZodEnum._parse]: the input must be one of the values, as a string. *)
Definition ZodEnum_parse (values : list string)
  (path : list string) (data : value) : Parse ParseReturnType :=
  match data with
  | VString s =>
      if existsb (String.eqb s) values then ret (OK data)
      else
        addIssueToContext path
          [("received", JStr s); ("code", JStr "invalid_enum_value");
           ("options", JArr (map JStr values))] ;;
        ret INVALID
  | _ =>
      addIssueToContext path
        [("expected", JStr (joinValues (map JStr values)));
         ("received", JStr (ZodParsedType_name (getParsedType data)));
         ("code", JStr "invalid_type")] ;;
      ret INVALID
  end.

(** [key in obj]. *)
Definition has_prop {A} (props : list (string * A)) (key : string) : bool :=
  existsb (fun kv => String.eqb (fst kv) key) props.

(** One entry of [pairs] in [ZodObject._parse]. *)
Record ObjectPair := {
  pair_key : string;
  pair_value : ParseReturnType;
  pair_alwaysSet : bool
}.

(** [ParseStatus.mergeObjectSync(status, pairs)], from a valid status. *)
Definition assign (finalObject : list (string * value)) (p : ObjectPair)
  (v : value) : list (string * value) :=
  if negb (String.eqb (pair_key p) "__proto__")
     && (match v with VUndefined => false | _ => true end || pair_alwaysSet p)
  then set_prop finalObject (pair_key p) v
  else finalObject.

Fixpoint mergeObjectSync (dirty : bool) (finalObject : list (string * value))
  (pairs : list ObjectPair) : ParseReturnType :=
  match pairs with
  | [] => finish dirty (VObject finalObject)
  | p :: rest =>
      match pair_value p with
      | INVALID => INVALID
      | DIRTY v => mergeObjectSync true (assign finalObject p v) rest
      | OK v => mergeObjectSync dirty (assign finalObject p v) rest
      end
  end.

(** [schema._parse(input)] with [input.path = path] and [input.data = data].
    An object schema parses every key of its shape, in order, before the
    results are merged; unknown keys are stripped. *)
Fixpoint _parse (schema : ZodType) (path : list string) (data : value)
  {struct schema} : Parse ParseReturnType :=
  match schema with
  | ZodString checks => ZodString_parse checks path data
  | ZodNumber coerce checks => ZodNumber_parse coerce checks path data
  | ZodEnum values => ZodEnum_parse values path data
  | ZodObject shape =>
      match data with
      | VObject props =>
          do pairs <-
            (fix keys (shape : list (string * ZodType))
               : Parse (list ObjectPair) :=
               match shape with
               | [] => ret []
               | (key, keyValidator) :: rest =>
                   do r <- _parse keyValidator (path ++ [key])
                             (get_prop VUndefined props key);
                   do rs <- keys rest;
                   ret ({| pair_key := key; pair_value := r;
                           pair_alwaysSet := has_prop props key |} :: rs)
               end) shape;
          ret (mergeObjectSync false [] pairs)
      | _ =>
          addIssueToContext path
            [("code", JStr "invalid_type"); ("expected", JStr "object");
             ("received", JStr (ZodParsedType_name (getParsedType data)))] ;;
          ret INVALID
      end
  end.

(** *** safeParse and ZodError *)

Record ZodError := { issues : list ZodIssue }.

(** [error.message]: the issues, pretty-printed. *)
Definition message (e : ZodError) : string :=
  match stringify (JArr (map JObj (issues e))) with
  | Some s => s
  | None => "undefined"
  end.

(** The result of [safeParse]; [handleResult] throws a plain [Error] when a
    parse fails without an issue. *)
Inductive SafeParseReturnType :=
| SafeParseSuccess (data : value)
| SafeParseError (error : ZodError)
| SafeParseThrows (msg : string).

Definition safeParse (schema : ZodType) (data : value) : SafeParseReturnType :=
  let '(result, issues) := _parse schema [] data [] in
  match result with
  | OK v => SafeParseSuccess v
  | _ =>
      match issues with
      | [] => SafeParseThrows "Validation failed but no issues detected."
      | _ => SafeParseError {| issues := issues |}
      end
  end.

(** The builders [z.string()], [z.coerce.number()], [z.enum], [z.object]. *)
Module z.
Definition string : ZodType := ZodString [].
Definition enum (values : list String.string) : ZodType := ZodEnum values.
Definition object (shape : list (String.string * ZodType)) : ZodType :=
  ZodObject shape.
Module coerce.
Definition number : ZodType := ZodNumber true [].
End coerce.
End z.

End Zod.

(** ** The schema ([config.schema.ts]) *)

Import Zod.

Notation "x |> f" := (f x) (at level 50, left associativity, only parsing).

Definition environmentSchema : ZodType := z.enum ["development"; "production"].

Definition databaseSchema : ZodType :=
  z.object [
    ("host", z.string |> min 1);
    ("database", z.string |> min 1);
    ("password", z.string |> min 1);
    ("port", z.coerce.number |> min 1);
    ("username", z.string |> min 1)
  ].

Definition configSchema : ZodType :=
  z.object [
    ("env", environmentSchema);
    ("port", z.coerce.number |> positive |> int);
    ("database", databaseSchema)
  ].

(** ** The factory ([config.factory.ts]) *)

(** The Node process, as far as the factory sees it: [process.env]. *)
Record Process := { env : gmap string string }.

(** [Config] is [z.infer<typeof configSchema>]: at run time the object
    [safeParse] returns. [ConfigException] extends [Error] and adds nothing. *)
Inductive Exception :=
| ConfigException (message : string)
| Error (message : string).

Inductive Outcome :=
| Returns (config : value)
| Throws (e : Exception).

(** The object literal handed to [safeParse]; the variables are read in the
    order of the literal. *)
Definition rawConfig (p : Process) : value :=
  VObject [
    ("env", of_env (env p !! "NODE_ENV"));
    ("port", of_env (env p !! "PORT"));
    ("database", VObject [
      ("host", of_env (env p !! "DATABASE_HOST"));
      ("port", of_env (env p !! "DATABASE_PORT"));
      ("username", of_env (env p !! "DATABASE_USERNAME"));
      ("password", of_env (env p !! "DATABASE_PASSWORD"));
      ("database", of_env (env p !! "DATABASE_NAME"))
    ])
  ].

(** [configFactory()], run in a process; the process is handed back as the
    call leaves it. *)
Definition configFactory (p : Process) : Outcome * Process :=
  let result := safeParse configSchema (rawConfig p) in
  match result with
  | SafeParseSuccess data => (Returns data, p)
  | SafeParseError error =>
      (Throws (ConfigException
                 ("Configuration file error: " +:+ Zod.message error)), p)
  | SafeParseThrows msg => (Throws (Error msg), p)
  end.

(** ** The service ([config.service.ts]) *)

(** The interface of [ConfigService] of [@nestjs/config] that the wrapper
    calls: [get(propertyPath, { infer: true })]. *)
Record NestConfigService := {
  nest_get : string -> value
}.

(** [keyof Config]. *)
Inductive ConfigKey := key_env | key_port | key_database.

Definition key_name (key : ConfigKey) : string :=
  match key with
  | key_env => "env"
  | key_port => "port"
  | key_database => "database"
  end.

Record ConfigService := {
  configService : NestConfigService
}.

(** [get<K extends keyof Config>(key: K): Config[K]]; the cast is erased at
    run time. *)
Definition ConfigService_get (this : ConfigService) (key : ConfigKey) : value :=
  nest_get (configService this) (key_name key).

(** [config[key]] for a loaded configuration object. *)
Definition config_prop (config : value) (key : string) : value :=
  match config with
  | VObject props => get_prop VUndefined props key
  | _ => VUndefined
  end.

(** A Nest service that holds [config] as the configuration its [load]
    factory returned, and answers [get] from it. *)
Definition serves (nest : NestConfigService) (config : value) : Prop :=
  forall key, nest_get nest (key_name key) = config_prop config (key_name key).

Definition nest_of (config : value) : NestConfigService :=
  {| nest_get := config_prop config |}.


(** ** Vocabulary of the properties *)

(** The seven leaf fields of the configuration. *)
Inductive Field :=
| f_env | f_port | f_host | f_database | f_password | f_dbport | f_username.

Definition all_fields : list Field :=
  [f_env; f_port; f_host; f_database; f_password; f_dbport; f_username].

(** Where a field sits in [Config]. *)
Definition field_path (f : Field) : list string :=
  match f with
  | f_env => ["env"]
  | f_port => ["port"]
  | f_host => ["database"; "host"]
  | f_database => ["database"; "database"]
  | f_password => ["database"; "password"]
  | f_dbport => ["database"; "port"]
  | f_username => ["database"; "username"]
  end.

(** The environment variable the factory reads for a field. *)
Definition field_var (f : Field) : string :=
  match f with
  | f_env => "NODE_ENV"
  | f_port => "PORT"
  | f_host => "DATABASE_HOST"
  | f_database => "DATABASE_NAME"
  | f_password => "DATABASE_PASSWORD"
  | f_dbport => "DATABASE_PORT"
  | f_username => "DATABASE_USERNAME"
  end.

(** The schema found at a path of an object schema, and the value found at
    a path of an object. *)
Fixpoint schema_at (path : list string) (schema : ZodType) : option ZodType :=
  match path with
  | [] => Some schema
  | key :: rest =>
      match schema with
      | ZodObject shape =>
          match get_prop None (map (fun ks => (fst ks, Some (snd ks))) shape) key with
          | Some s => schema_at rest s
          | None => None
          end
      | _ => None
      end
  end.

Fixpoint value_at (path : list string) (v : value) : value :=
  match path with
  | [] => v
  | key :: rest => value_at rest (config_prop v key)
  end.

Definition accepted (r : ParseReturnType) : bool :=
  match r with
  | OK _ => true
  | _ => false
  end.

(** The parse of one field on its own: the field's schema, taken from
    [configSchema], run at the field's path on the value the factory reads
    for it, in a context without issues. *)
Definition field_parse (p : Process) (f : Field)
  : ParseReturnType * list ZodIssue :=
  match schema_at (field_path f) configSchema with
  | Some schema =>
      _parse schema (field_path f) (value_at (field_path f) (rawConfig p)) []
  | None => (INVALID, [])
  end.

Definition field_ok (p : Process) (f : Field) : bool :=
  accepted (fst (field_parse p f)).

(** A positive integer, and a number that is at least one. *)
Definition positive_integer (n : Js.number) : bool :=
  Js.lt (Js.of_Z 0) n && Js.isInteger n.

Definition at_least_one (n : Js.number) : bool :=
  Js.le (Js.of_Z 1) n.

Definition allowed_environment (s : string) : Prop :=
  s = "development" \/ s = "production".

Definition non_empty (s : string) : Prop := s <> EmptyString.

(** [sub] occurs in [s]. *)
Definition occurs_in (sub s : string) : Prop :=
  exists before after, s = before +:+ sub +:+ after.

(** The issue sits at [path]. *)
Definition issue_at (path : list string) (issue : ZodIssue) : Prop :=
  get_prop Json.JUndefined issue "path" = Json.JArr (map Json.JStr path).

(** The object a [Config] is at run time, from the values of its fields. *)
Definition mkConfig (e : string) (port : Js.number) (h d pw : string)
  (dbport : Js.number) (u : string) : value :=
  VObject [
    ("env", VString e);
    ("port", VNumber port);
    ("database", VObject [
      ("host", VString h);
      ("database", VString d);
      ("password", VString pw);
      ("port", VNumber dbport);
      ("username", VString u)
    ])
  ].

(** A process whose environment is given by a list of bindings. *)
Definition process_of (bindings : list (string * string)) : Process :=
  {| env := list_to_map bindings |}.

(** The example of the specification. *)
Definition example_process : Process :=
  process_of [
    ("NODE_ENV", "development"); ("PORT", "3000");
    ("DATABASE_HOST", "localhost"); ("DATABASE_PORT", "5432");
    ("DATABASE_USERNAME", "postgres"); ("DATABASE_PASSWORD", "postgres");
    ("DATABASE_NAME", "postgres")
  ].

Import Json.

(** ** Vocabulary of the proofs *)

(** A computation appends its own issues to those of the context, and
    returns the same result whatever the context holds. *)
Definition appends {A} (m : Parse A) : Prop :=
  forall iss, m iss = (fst (m []), iss ++ snd (m [])).

(** The loop of [ZodObject._parse] over the keys of the shape. *)
Definition parse_keys (path : list string) (props : list (string * value)) :=
  fix keys (shape : list (string * ZodType)) : Parse (list ObjectPair) :=
    match shape with
    | [] => ret []
    | (key, keyValidator) :: rest =>
        do r <- _parse keyValidator (path ++ [key])
                  (get_prop VUndefined props key);
        do rs <- keys rest;
        ret ({| pair_key := key; pair_value := r;
                pair_alwaysSet := has_prop props key |} :: rs)
    end.

(** The parse of one key of a shape, in a context without issues. *)
Definition key_parse (path : list string) (props : list (string * value))
  (ks : string * ZodType) : ParseReturnType * list ZodIssue :=
  _parse (snd ks) (path ++ [fst ks]) (get_prop VUndefined props (fst ks)) [].

(** The entry of [pairs] that [ZodObject._parse] builds for one key. *)
Definition key_pair (path : list string) (props : list (string * value))
  (ks : string * ZodType) : ObjectPair :=
  {| pair_key := fst ks;
     pair_value := fst (key_parse path props ks);
     pair_alwaysSet := has_prop props (fst ks) |}.

(** A parse is valid exactly when it raised no issue. *)
Definition sound (r : ParseReturnType * list ZodIssue) : Prop :=
  accepted (fst r) = true <-> snd r = [].

(** Every issue a computation raises, run in a context without issues,
    satisfies [P]. *)
Definition located {A} (P : ZodIssue -> Prop) (m : Parse A) : Prop :=
  Forall P (snd (m [])).

(** The entries of [pairs] for the fields of [configSchema] and of
    [databaseSchema], in terms of the parses of the seven fields. *)
Definition leaf_pair (p : Process) (f : Field) (key : string) : ObjectPair :=
  {| pair_key := key; pair_value := fst (field_parse p f);
     pair_alwaysSet := true |}.

(** The fields of the database object, in the order of its shape. *)
Definition database_fields : list Field :=
  [f_host; f_database; f_password; f_dbport; f_username].

Definition database_pairs (p : Process) : list ObjectPair :=
  [leaf_pair p f_host "host"; leaf_pair p f_database "database";
   leaf_pair p f_password "password"; leaf_pair p f_dbport "port";
   leaf_pair p f_username "username"].

Definition config_pairs (p : Process) : list ObjectPair :=
  [leaf_pair p f_env "env"; leaf_pair p f_port "port";
   {| pair_key := "database";
      pair_value := mergeObjectSync false [] (database_pairs p);
      pair_alwaysSet := true |}].

(** The issues the parse of a field raises. *)
Definition field_issues (p : Process) (f : Field) : list ZodIssue :=
  snd (field_parse p f).

(** The value a field has in the configuration when it is accepted. *)
Definition field_value (p : Process) (f : Field) : value :=
  match fst (field_parse p f) with
  | OK v | DIRTY v => v
  | INVALID => VUndefined
  end.

(** What the factory reads for a field: [process.env.X]. *)
Definition field_raw (p : Process) (f : Field) : value :=
  of_env (env p !! field_var f).

(** The configuration a successful parse returns. *)
Definition config_of (p : Process) : value :=
  VObject [
    ("env", field_value p f_env);
    ("port", field_value p f_port);
    ("database", VObject [
      ("host", field_value p f_host);
      ("database", field_value p f_database);
      ("password", field_value p f_password);
      ("port", field_value p f_dbport);
      ("username", field_value p f_username)
    ])
  ].

(** The fields whose schema is [z.string().min(1)]. *)
Definition string_field (f : Field) : bool :=
  match f with
  | f_host | f_database | f_password | f_username => true
  | _ => false
  end.

(** The value of an accepted field is the value read for it: as it is for
    the strings, converted by [Number] for the ports. *)
Definition coerced (p : Process) (f : Field) : value :=
  match f with
  | f_port | f_dbport => VNumber (Number (field_raw p f))
  | _ => field_raw p f
  end.

(** The issues of all fields, in the order the object schemas parse them. *)
Definition config_issues (p : Process) : list ZodIssue :=
  concat (map (field_issues p) all_fields).

(** [s] without its prefix [pre], when it starts with it; the first
    occurrence of [sub] in [s], as what stands before and after it. *)
Fixpoint strip_prefix (pre s : string) : option string :=
  match pre, s with
  | EmptyString, _ => Some s
  | String a pre', String b s' =>
      if Ascii.eqb a b then strip_prefix pre' s' else None
  | String _ _, EmptyString => None
  end.

Fixpoint find_occurrence (sub s : string) : option (string * string) :=
  match strip_prefix sub s with
  | Some after => Some (EmptyString, after)
  | None =>
      match s with
      | EmptyString => None
      | String c rest =>
          match find_occurrence sub rest with
          | Some (before, after) => Some (String c before, after)
          | None => None
          end
      end
  end.

(** The last component of a field's path: the name of the field. *)
Definition field_name (f : Field) : string :=
  match f with
  | f_env => "env"
  | f_port | f_dbport => "port"
  | f_host => "host"
  | f_database => "database"
  | f_password => "password"
  | f_username => "username"
  end.

(** A decimal digit, and the integer a string of decimal digits denotes. *)
Definition decimal_digit (c : ascii) : Prop :=
  In c ["0"; "1"; "2"; "3"; "4"; "5"; "6"; "7"; "8"; "9"]%char.

Definition digit_value (c : ascii) : Z := Z.of_N (N_of_ascii c) - 48.

Definition numeral_value (l : list ascii) : Z :=
  Js.digits_value 10 (map digit_value l).

(** A process in which DATABASE_PORT is [1.5] and the rest is the example. *)
Definition fractional_port_process : Process :=
  process_of [
    ("NODE_ENV", "development"); ("PORT", "3000");
    ("DATABASE_HOST", "localhost"); ("DATABASE_PORT", "1.5");
    ("DATABASE_USERNAME", "postgres"); ("DATABASE_PASSWORD", "postgres");
    ("DATABASE_NAME", "postgres")
  ].

(** Processes in which PORT is [-1], respectively [abc], and the rest is the
    example. *)
Definition negative_port_process : Process :=
  process_of [
    ("NODE_ENV", "development"); ("PORT", "-1");
    ("DATABASE_HOST", "localhost"); ("DATABASE_PORT", "5432");
    ("DATABASE_USERNAME", "postgres"); ("DATABASE_PASSWORD", "postgres");
    ("DATABASE_NAME", "postgres")
  ].

Definition alphabetic_port_process : Process :=
  process_of [
    ("NODE_ENV", "development"); ("PORT", "abc");
    ("DATABASE_HOST", "localhost"); ("DATABASE_PORT", "5432");
    ("DATABASE_USERNAME", "postgres"); ("DATABASE_PASSWORD", "postgres");
    ("DATABASE_NAME", "postgres")
  ].

(** A process whose NODE_ENV is [staging] and whose DATABASE_PASSWORD is not
    set; the rest is the example. *)
Definition staging_process : Process :=
  process_of [
    ("NODE_ENV", "staging"); ("PORT", "3000");
    ("DATABASE_HOST", "localhost"); ("DATABASE_PORT", "5432");
    ("DATABASE_USERNAME", "postgres"); ("DATABASE_NAME", "postgres")
  ].

(** A process in which DATABASE_PASSWORD is not set; the rest is the example. *)
Definition no_password_process : Process :=
  process_of [
    ("NODE_ENV", "development"); ("PORT", "3000");
    ("DATABASE_HOST", "localhost"); ("DATABASE_PORT", "5432");
    ("DATABASE_USERNAME", "postgres"); ("DATABASE_NAME", "postgres")
  ].

(** A process in which DATABASE_HOST is set to the empty string; the rest
    is the example. *)
Definition empty_host_process : Process :=
  process_of [
    ("NODE_ENV", "development"); ("PORT", "3000");
    ("DATABASE_HOST", EmptyString); ("DATABASE_PORT", "5432");
    ("DATABASE_USERNAME", "postgres"); ("DATABASE_PASSWORD", "postgres");
    ("DATABASE_NAME", "postgres")
  ].

(** A process that sets, besides the variables of the example, two
    variables the factory does not read. *)
Definition noisy_process : Process :=
  process_of [
    ("HOME", "/root"); ("port", "1");
    ("NODE_ENV", "development"); ("PORT", "3000");
    ("DATABASE_HOST", "localhost"); ("DATABASE_PORT", "5432");
    ("DATABASE_USERNAME", "postgres"); ("DATABASE_PASSWORD", "postgres");
    ("DATABASE_NAME", "postgres")
  ].

(** ** Expected texts *)

(** Texts the thrown message is compared with, written out line by line. A
    backquote in a line stands for a double quote; the lines are joined by
    line feeds. *)
Fixpoint backquotes_to_quotes (s : string) : string :=
  match s with
  | EmptyString => EmptyString
  | String c rest =>
      String (if Ascii.eqb c "`" then "034"%char else c)
        (backquotes_to_quotes rest)
  end.

Fixpoint join_lines (lines : list string) : string :=
  match lines with
  | [] => EmptyString
  | [line] => line
  | line :: rest => line +:+ String "010"%char (join_lines rest)
  end.

Definition text (lines : list string) : string :=
  backquotes_to_quotes (join_lines lines).

(** The member [path] of an issue of each field, as the message shows it. *)
Definition field_path_text (f : Field) : string :=
  text
    match f with
    | f_env =>
        ["`path`: [";
         "      `env`";
         "    ]"]
    | f_port =>
        ["`path`: [";
         "      `port`";
         "    ]"]
    | f_host =>
        ["`path`: [";
         "      `database`,";
         "      `host`";
         "    ]"]
    | f_database =>
        ["`path`: [";
         "      `database`,";
         "      `database`";
         "    ]"]
    | f_password =>
        ["`path`: [";
         "      `database`,";
         "      `password`";
         "    ]"]
    | f_dbport =>
        ["`path`: [";
         "      `database`,";
         "      `port`";
         "    ]"]
    | f_username =>
        ["`path`: [";
         "      `database`,";
         "      `username`";
         "    ]"]
    end.

(** The name of each field between double quotes. *)
Definition field_name_text (f : Field) : string :=
  text
    match f with
    | f_env => ["`env`"]
    | f_port | f_dbport => ["`port`"]
    | f_host => ["`host`"]
    | f_database => ["`database`"]
    | f_password => ["`password`"]
    | f_username => ["`username`"]
    end.

(** The whole message [configFactory] throws when NODE_ENV is [staging] and
    DATABASE_PASSWORD is not set, and when only DATABASE_PASSWORD is not
    set. *)
Definition staging_message : string :=
  text
    ["Configuration file error: [";
     "  {";
     "    `received`: `staging`,";
     "    `code`: `invalid_enum_value`,";
     "    `options`: [";
     "      `development`,";
     "      `production`";
     "    ],";
     "    `path`: [";
     "      `env`";
     "    ],";
     "    `message`: `Invalid enum value. Expected 'development' | 'production', received 'staging'`";
     "  },";
     "  {";
     "    `code`: `invalid_type`,";
     "    `expected`: `string`,";
     "    `received`: `undefined`,";
     "    `path`: [";
     "      `database`,";
     "      `password`";
     "    ],";
     "    `message`: `Required`";
     "  }";
     "]"].

Definition no_password_message : string :=
  text
    ["Configuration file error: [";
     "  {";
     "    `code`: `invalid_type`,";
     "    `expected`: `string`,";
     "    `received`: `undefined`,";
     "    `path`: [";
     "      `database`,";
     "      `password`";
     "    ],";
     "    `message`: `Required`";
     "  }";
     "]"].


(** ** Vocabulary of the further properties *)

(** The database object of a [Config], from the values of its fields. *)
Definition mkDatabase (h d pw : string) (dbport : Js.number) (u : string)
  : value :=
  VObject [
    ("host", VString h);
    ("database", VString d);
    ("password", VString pw);
    ("port", VNumber dbport);
    ("username", VString u)
  ].

(** What [databaseSchema] asks of an object with the properties [props], and
    what [configSchema] asks. *)
Definition database_valid (props : list (string * value))
  (h d pw : string) (n : Js.number) (u : string) : Prop :=
  get_prop VUndefined props "host" = VString h /\ non_empty h /\
  get_prop VUndefined props "database" = VString d /\ non_empty d /\
  get_prop VUndefined props "password" = VString pw /\ non_empty pw /\
  n = Number (get_prop VUndefined props "port") /\ at_least_one n = true /\
  get_prop VUndefined props "username" = VString u /\ non_empty u.

Definition config_valid (props : list (string * value))
  (e : string) (port : Js.number) (h d pw : string) (n : Js.number)
  (u : string) : Prop :=
  get_prop VUndefined props "env" = VString e /\ allowed_environment e /\
  port = Number (get_prop VUndefined props "port") /\
  positive_integer port = true /\
  exists dprops,
    get_prop VUndefined props "database" = VObject dprops /\
    database_valid dprops h d pw n u.

(** The two port fields. *)
Definition port_field (f : Field) : bool :=
  match f with
  | f_port | f_dbport => true
  | _ => false
  end.

(** The schema of each field, as [config.schema.ts] writes it. *)
Definition field_schema (f : Field) : ZodType :=
  match f with
  | f_env => environmentSchema
  | f_port => z.coerce.number |> positive |> int
  | f_dbport => z.coerce.number |> min 1
  | f_host | f_database | f_password | f_username => z.string |> min 1
  end.

(** The process with one more assignment to a variable. *)
Definition with_var (p : Process) (name val : string) : Process :=
  {| env := <[name := val]> (env p) |}.

(** A string made of white space only; the empty string is one. *)
Definition all_whitespace (s : string) : Prop :=
  Forall (fun c => Js.is_StrWhiteSpaceChar c = true) (list_ascii_of_string s).

(** What [bootstrap] of [main.ts] does to the outside, in order: calls of
    [Logger.debug(message, context)] and of [app.listen(port)]. *)
Inductive Effect :=
| Logger_debug (message : value) (context : string)
| app_listen (port : value).

(** [bootstrap()], from the point where [NestFactory.create(AppModule)] has
    returned the application; [configService] is [app.get(ConfigService)]. *)
Definition bootstrap (configService : ConfigService) : list Effect :=
  [Logger_debug (ConfigService_get configService key_env) "environment";
   Logger_debug (ConfigService_get configService key_port) "port";
   Logger_debug (ConfigService_get configService key_database) "database";
   app_listen (ConfigService_get configService key_port)].

(** Whether a variable is unset, set to the empty string, or set to a string
    that is not empty. *)
Inductive StringClass := var_unset | var_empty | var_non_empty.

Definition string_class (o : option string) : StringClass :=
  match o with
  | None => var_unset
  | Some EmptyString => var_empty
  | Some (String _ _) => var_non_empty
  end.

(** * Properties *)

(** ** Properties and property lists *)

Section Props.
Context {A : Type} (dflt : A).

Lemma get_set_prop_eq (props : list (string * A)) key v :
  get_prop dflt (set_prop props key v) key = v.
Proof.
  induction props as [|[k w] rest IH]; simpl.
  - by rewrite String.eqb_refl.
  - destruct (String.eqb k key) eqn:E; simpl; rewrite E; auto.
Qed.

Lemma get_set_prop_ne (props : list (string * A)) key key' v :
  key <> key' ->
  get_prop dflt (set_prop props key v) key' = get_prop dflt props key'.
Proof.
  intros Hne. induction props as [|[k w] rest IH]; simpl.
  - destruct (String.eqb key key') eqn:E; [|done].
    by apply String.eqb_eq in E.
  - destruct (String.eqb k key) eqn:E; simpl.
    + apply String.eqb_eq in E as ->.
      destruct (String.eqb key key') eqn:E'; [|done].
      by apply String.eqb_eq in E'.
    + by rewrite IH.
Qed.
End Props.

(** ** Strings *)

Lemma append_cons x (a b : string) : String x a +:+ b = String x (a +:+ b).
Proof. reflexivity. Qed.

Lemma append_assoc (a b c : string) : (a +:+ b) +:+ c = a +:+ (b +:+ c).
Proof.
  induction a as [|x a IH]; [done|]. rewrite !append_cons. by rewrite IH.
Qed.

Lemma append_empty_r (a : string) : a +:+ EmptyString = a.
Proof.
  induction a as [|x a IH]; [done|]. rewrite append_cons. by rewrite IH.
Qed.

Lemma occurs_in_refl s : occurs_in s s.
Proof. exists EmptyString, EmptyString. by rewrite append_empty_r. Qed.

Lemma occurs_in_trans a b c : occurs_in a b -> occurs_in b c -> occurs_in a c.
Proof.
  intros (p1 & q1 & ->) (p2 & q2 & ->).
  exists (p2 +:+ p1), (q1 +:+ q2). by rewrite !append_assoc.
Qed.

Lemma occurs_in_app_l a s t : occurs_in a s -> occurs_in a (s +:+ t).
Proof.
  intros (p & q & ->). exists p, (q +:+ t). by rewrite !append_assoc.
Qed.

Lemma occurs_in_app_r a s t : occurs_in a t -> occurs_in a (s +:+ t).
Proof.
  intros (p & q & ->). exists (s +:+ p), q. by rewrite !append_assoc.
Qed.

Lemma occurs_in_join sep (l : list string) x :
  In x l -> occurs_in x (Json.join sep l).
Proof.
  induction l as [|y [|z rest] IH]; simpl; [done | |].
  - intros [->|[]]. apply occurs_in_refl.
  - intros [->|Hin].
    + apply occurs_in_app_l, occurs_in_refl.
    + apply occurs_in_app_r, occurs_in_app_r, IH, Hin.
Qed.

(** ** Comparisons of numbers *)

Lemma compare_antisym a b :
  Js.compare b a = option_map CompOpp (Js.compare a b).
Proof.
  destruct a as [sa|sa| |sa ma ea], b as [sb|sb| |sb mb eb];
    try (by destruct sa); try (by destruct sb);
    try (by destruct sa, sb);
    unfold Js.compare; cbn [option_map]; f_equal;
    rewrite (Z.min_comm (Js.exponent _)); apply Z.compare_antisym.
Qed.

Lemma le_false_iff_lt a b :
  Js.isNaN a = false -> Js.isNaN b = false ->
  Js.le a b = false <-> Js.lt b a = true.
Proof.
  intros Ha Hb. unfold Js.le, Js.lt. rewrite (compare_antisym a b).
  destruct (Js.compare a b) as [[]|] eqn:E; simpl; try (split; done).
  destruct a, b; simpl in *; try done; destruct s; try destruct s0; done.
Qed.

Lemma lt_false_iff_le a b :
  Js.isNaN a = false -> Js.isNaN b = false ->
  Js.lt a b = false <-> Js.le b a = true.
Proof.
  intros Ha Hb. unfold Js.le, Js.lt. rewrite (compare_antisym a b).
  destruct (Js.compare a b) as [[]|] eqn:E; simpl; try (split; done).
  destruct a, b; simpl in *; try done; destruct s; try destruct s0; done.
Qed.

Lemma lt_not_NaN a b : Js.lt a b = true -> Js.isNaN b = false.
Proof. destruct a, b; try done; destruct s; done. Qed.

Lemma le_not_NaN a b : Js.le a b = true -> Js.isNaN b = false.
Proof. destruct a, b; try done; destruct s; done. Qed.

(** ** The parse context only grows *)

Lemma appends_ret {A} (a : A) : appends (ret a).
Proof. intros iss. unfold ret; simpl. by rewrite app_nil_r. Qed.

Lemma appends_addIssue path d : appends (addIssueToContext path d).
Proof. intros iss. reflexivity. Qed.

Lemma appends_bind {A B} (m : Parse A) (k : A -> Parse B) :
  appends m -> (forall a, appends (k a)) -> appends (bind m k).
Proof.
  intros Hm Hk iss. unfold bind.
  rewrite (Hm iss). rewrite (Hk (fst (m [])) (iss ++ snd (m []))).
  destruct (m []) as [a i0] eqn:E; simpl.
  rewrite (Hk a i0). simpl. by rewrite app_assoc.
Qed.

Lemma bind_nil {A B} (m : Parse A) (k : A -> Parse B) :
  (forall a, appends (k a)) ->
  bind m k [] = (fst (k (fst (m [])) []), snd (m []) ++ snd (k (fst (m [])) [])).
Proof.
  intros Hk. unfold bind. destruct (m []) as [a i0]; simpl. apply Hk.
Qed.

Create HintDb zod.

#[local] Hint Resolve appends_ret appends_addIssue appends_bind : zod.

Lemma appends_ZodString_checks path s checks dirty :
  appends (ZodString_checks path s checks dirty).
Proof.
  revert dirty. induction checks as [|[v m] rest IH]; intros dirty; simpl.
  - auto with zod.
  - destruct (length_of s <? v); auto with zod.
Qed.

Lemma appends_ZodNumber_checks path n checks dirty :
  appends (ZodNumber_checks path n checks dirty).
Proof.
  revert dirty. induction checks as [|[v incl m|m] rest IH]; intros dirty; simpl.
  - auto with zod.
  - destruct (if incl then _ else _); auto with zod.
  - destruct (negb _); auto with zod.
Qed.

#[local] Hint Resolve appends_ZodString_checks appends_ZodNumber_checks : zod.

Lemma appends_ZodString_parse checks path data :
  appends (ZodString_parse checks path data).
Proof. destruct data; simpl; auto with zod. Qed.

Lemma appends_ZodNumber_parse coerce checks path data :
  appends (ZodNumber_parse coerce checks path data).
Proof.
  unfold ZodNumber_parse.
  destruct (if coerce then _ else _) as [| |n|]; simpl; auto with zod.
  destruct (Js.isNaN n); auto with zod.
Qed.

Lemma appends_ZodEnum_parse values path data :
  appends (ZodEnum_parse values path data).
Proof.
  destruct data as [|s| |]; simpl; auto with zod.
  destruct (existsb _ _); auto with zod.
Qed.

#[local] Hint Resolve appends_ZodString_parse appends_ZodNumber_parse
  appends_ZodEnum_parse : zod.

(** Induction on schemas that reaches the schemas of a shape. *)
Lemma ZodType_shape_ind (P : ZodType -> Prop) :
  (forall checks, P (ZodString checks)) ->
  (forall coerce checks, P (ZodNumber coerce checks)) ->
  (forall values, P (ZodEnum values)) ->
  (forall shape, Forall (fun ks => P (snd ks)) shape -> P (ZodObject shape)) ->
  forall schema, P schema.
Proof.
  intros Hs Hn He Ho.
  fix IH 1. intros [checks|coerce checks|values|shape].
  - apply Hs.
  - apply Hn.
  - apply He.
  - apply Ho. revert shape. fix IHs 1.
    intros [|[k s] rest]; constructor; [apply IH | apply IHs].
Qed.

Lemma parse_object_unfold shape path props :
  _parse (ZodObject shape) path (VObject props) =
  (do pairs <- parse_keys path props shape;
   ret (mergeObjectSync false [] pairs)).
Proof. reflexivity. Qed.

Lemma appends_parse schema : forall path data, appends (_parse schema path data).
Proof.
  induction schema as [checks|coerce checks|values|shape IH]
    using ZodType_shape_ind; intros path data; simpl; auto with zod.
  destruct data as [| | |props]; auto with zod.
  apply appends_bind; [|auto with zod].
  induction IH as [|[k s] rest Hs _ IHrest]; simpl; auto 6 with zod.
Qed.

(** *** An object schema parses its keys independently *)

Lemma appends_parse_keys path props shape :
  appends (parse_keys path props shape).
Proof.
  induction shape as [|[k s] rest IH]; simpl; auto 6 using appends_parse with zod.
Qed.

Lemma parse_keys_nil path props shape :
  parse_keys path props shape [] =
  (map (key_pair path props) shape,
   concat (map (fun ks => snd (key_parse path props ks)) shape)).
Proof.
  induction shape as [|[k s] rest IH]; [done|].
  cbn [parse_keys]. fold (parse_keys path props).
  rewrite bind_nil.
  2:{ intros a. apply appends_bind; [apply appends_parse_keys | auto with zod]. }
  rewrite bind_nil by auto with zod.
  rewrite IH. simpl. by rewrite app_nil_r.
Qed.

(** The result of an object schema on an object: the merge of the results of
    its keys, and the issues of its keys in the order of the shape. *)
Lemma parse_object shape path props :
  _parse (ZodObject shape) path (VObject props) [] =
  (mergeObjectSync false [] (map (key_pair path props) shape),
   concat (map (fun ks => snd (key_parse path props ks)) shape)).
Proof.
  rewrite parse_object_unfold, bind_nil by auto with zod.
  rewrite parse_keys_nil. simpl. by rewrite app_nil_r.
Qed.

(** *** Merging *)

Lemma mergeObjectSync_accepted dirty finalObject pairs :
  accepted (mergeObjectSync dirty finalObject pairs) = true <->
  dirty = false /\ Forall (fun p => accepted (pair_value p) = true) pairs.
Proof.
  revert dirty finalObject.
  induction pairs as [|p rest IH]; intros dirty fo; simpl.
  - destruct dirty; simpl; split; try done; intuition.
  - destruct (pair_value p) as [|v|v] eqn:E; simpl.
    + split; [done|]. intros [_ H]. inversion H; subst.
      by rewrite E in *.
    + rewrite IH. split; [by intros [? _]|].
      intros [_ H]. inversion H; subst. by rewrite E in *.
    + rewrite IH. split.
      * intros [? ?]. split; [done|]. constructor; [by rewrite E | done].
      * intros [? H]. inversion H; subst. done.
Qed.

(** *** A parse is valid exactly when it raised no issue *)

Lemma ZodString_checks_dirty path s checks dirty :
  fst (ZodString_checks path s checks dirty []) = false <->
  dirty = false /\ snd (ZodString_checks path s checks dirty []) = [].
Proof.
  revert dirty. induction checks as [|[v m] rest IH]; intros dirty; simpl.
  - intuition.
  - destruct (length_of s <? v).
    + rewrite bind_nil by auto with zod. simpl. rewrite IH.
      split; [by intros [? _] | by intros [_ ?]].
    + apply IH.
Qed.

Lemma ZodNumber_checks_dirty path n checks dirty :
  fst (ZodNumber_checks path n checks dirty []) = false <->
  dirty = false /\ snd (ZodNumber_checks path n checks dirty []) = [].
Proof.
  revert dirty.
  induction checks as [|[v incl m|m] rest IH]; intros dirty; simpl.
  - intuition.
  - destruct (if incl then _ else _).
    + rewrite bind_nil by auto with zod. simpl. rewrite IH.
      split; [by intros [? _] | by intros [_ ?]].
    + apply IH.
  - destruct (negb _).
    + rewrite bind_nil by auto with zod. simpl. rewrite IH.
      split; [by intros [? _] | by intros [_ ?]].
    + apply IH.
Qed.

Lemma accepted_finish dirty v : accepted (finish dirty v) = negb dirty.
Proof. by destruct dirty. Qed.

Lemma sound_ZodString_parse checks path data :
  sound (ZodString_parse checks path data []).
Proof.
  unfold sound. destruct data as [|s| |]; simpl; try (split; done).
  rewrite bind_nil by auto with zod. simpl. rewrite app_nil_r.
  rewrite accepted_finish, negb_true_iff, ZodString_checks_dirty. intuition.
Qed.

Lemma sound_ZodNumber_parse coerce checks path data :
  sound (ZodNumber_parse coerce checks path data []).
Proof.
  unfold sound, ZodNumber_parse.
  destruct (if coerce then _ else _) as [| |n|]; simpl; try (split; done).
  destruct (Js.isNaN n); simpl; [split; done|].
  rewrite bind_nil by auto with zod. simpl. rewrite app_nil_r.
  rewrite accepted_finish, negb_true_iff, ZodNumber_checks_dirty. intuition.
Qed.

Lemma sound_ZodEnum_parse values path data :
  sound (ZodEnum_parse values path data []).
Proof.
  unfold sound. destruct data as [|s| |]; simpl; try (split; done).
  destruct (existsb _ _); simpl; split; done.
Qed.

Lemma concat_nil_Forall {A} (ls : list (list A)) :
  concat ls = [] <-> Forall (fun l => l = []) ls.
Proof.
  induction ls as [|l rest IH]; simpl.
  - split; [constructor | done].
  - split.
    + intros H. apply app_eq_nil in H as [-> H]. constructor; [done|].
      by apply IH.
    + intros H. inversion H; subst. simpl. by apply IH.
Qed.

Lemma sound_parse schema :
  forall path data, sound (_parse schema path data []).
Proof.
  induction schema as [checks|coerce checks|values|shape IH]
    using ZodType_shape_ind; intros path data.
  - apply sound_ZodString_parse.
  - apply sound_ZodNumber_parse.
  - apply sound_ZodEnum_parse.
  - destruct data as [| | |props]; try (split; done).
    rewrite parse_object. unfold sound; simpl.
    rewrite mergeObjectSync_accepted, concat_nil_Forall, !Forall_map.
    split.
    + intros [_ H]. rewrite Forall_forall in *. intros ks Hin.
      apply (IH ks Hin), (H ks Hin).
    + intros H. split; [done|]. rewrite Forall_forall in *. intros ks Hin.
      apply (IH ks Hin), (H ks Hin).
Qed.

(** [safeParse] never reaches the throw of [handleResult]. *)
Lemma safeParse_never_throws schema data msg :
  safeParse schema data <> SafeParseThrows msg.
Proof.
  unfold safeParse.
  pose proof (sound_parse schema [] data) as Hs. unfold sound in Hs.
  destruct (_parse schema [] data []) as [r iss]; simpl in Hs.
  destruct r as [|v|v]; simpl in Hs; try done.
  - destruct iss; [|done]. destruct Hs as [_ Hs]. by specialize (Hs eq_refl).
  - destruct iss; [|done]. destruct Hs as [_ Hs]. by specialize (Hs eq_refl).
Qed.

(** *** The schemas of the fields *)

Lemma ZodEnum_accepts values path data :
  accepted (fst (ZodEnum_parse values path data [])) = true <->
  exists s, data = VString s /\ In s values.
Proof.
  destruct data as [|s|n|props]; simpl; try (split; [done | by intros (? & ? & ?)]).
  destruct (existsb (String.eqb s) values) eqn:E; simpl.
  - split; [|done]. intros _. exists s. split; [done|].
    apply existsb_exists in E as (x & Hin & Hx). by apply String.eqb_eq in Hx as ->.
  - split; [done|]. intros (s' & [= <-] & Hin).
    assert (existsb (String.eqb s) values = true) as E'; [|congruence].
    apply existsb_exists. exists s. by rewrite String.eqb_refl.
Qed.

Lemma ZodEnum_value values path data v :
  fst (ZodEnum_parse values path data []) = OK v -> v = data.
Proof.
  destruct data as [|s|n|props]; simpl; try done.
  destruct (existsb _ _); simpl; congruence.
Qed.

Lemma length_of_lt_1 s : (length_of s <? 1) = true <-> s = EmptyString.
Proof.
  unfold length_of. destruct s; simpl; split; try done.
  intros H. apply Z.ltb_lt in H. lia.
Qed.

Lemma ZodString_min1_accepts path data :
  accepted (fst (_parse (min 1 z.string) path data [])) = true <->
  exists s, data = VString s /\ non_empty s.
Proof.
  destruct data as [|s|n|props]; simpl; try (split; [done | by intros (? & ? & ?)]).
  unfold bind. simpl.
  destruct (length_of s <? 1) eqn:E; simpl.
  - apply length_of_lt_1 in E as ->. split; [done|]. by intros (s' & [= <-] & H).
  - split; [|done]. intros _. exists s. split; [done|].
    intros ->. by rewrite (proj2 (length_of_lt_1 EmptyString)) in E.
Qed.

Lemma ZodString_value checks path data v :
  fst (ZodString_parse checks path data []) = OK v -> v = data.
Proof.
  destruct data as [|s|n|props]; simpl; try done.
  unfold bind. destruct (ZodString_checks _ _ _ _ _) as [[] iss]; simpl; congruence.
Qed.

Lemma ZodNumber_coerce_value checks path data v :
  fst (ZodNumber_parse true checks path data []) = OK v ->
  v = VNumber (Number data).
Proof.
  unfold ZodNumber_parse. simpl.
  destruct (Js.isNaN (Number data)); simpl; [done|].
  unfold bind. destruct (ZodNumber_checks _ _ _ _ _) as [[] iss]; simpl; congruence.
Qed.

Lemma positive_int_accepts path data :
  accepted (fst (_parse (int (positive z.coerce.number)) path data [])) = true <->
  positive_integer (Number data) = true.
Proof.
  simpl. unfold ZodNumber_parse, positive_integer. simpl.
  destruct (Js.isNaN (Number data)) eqn:En; simpl.
  { split; [done|]. intros [H _]%andb_true_iff. apply lt_not_NaN in H. congruence. }
  change (Js.of_Z 0) with (S754_zero false).
  destruct (Js.le (Number data) (S754_zero false)) eqn:El.
  - assert (Js.lt (S754_zero false) (Number data) = false) as ->.
    { destruct (Js.lt _ _) eqn:E'; [|done].
      apply le_false_iff_lt in E'; [congruence|done..]. }
    simpl. unfold bind; simpl.
    destruct (negb (Js.isInteger (Number data))); simpl; split; done.
  - apply le_false_iff_lt in El as ->; [|done..]. simpl.
    unfold bind; simpl.
    destruct (Js.isInteger (Number data)); simpl; split; done.
Qed.

Lemma of_Z_1 : Js.of_Z 1 = S754_finite false 4503599627370496 (-52).
Proof. reflexivity. Qed.

Lemma min1_number_accepts path data :
  accepted (fst (_parse (min 1 z.coerce.number) path data [])) = true <->
  at_least_one (Number data) = true.
Proof.
  simpl. unfold ZodNumber_parse, at_least_one. simpl.
  destruct (Js.isNaN (Number data)) eqn:En; simpl.
  { split; [done|]. intros H. apply le_not_NaN in H. congruence. }
  unfold bind; simpl.
  destruct (Js.lt (Number data) (Js.of_Z 1)) eqn:El; simpl.
  - split; [done|]. intros H. apply lt_false_iff_le in H; [congruence|done..].
  - split; [|done]. intros _. by apply lt_false_iff_le in El.
Qed.

(** ** The message prints every issue *)

Lemma get_prop_In {A} (dflt : A) props key v :
  get_prop dflt props key = v -> v <> dflt -> In (key, v) props.
Proof.
  induction props as [|[k w] rest IH]; simpl; [congruence|].
  destruct (String.eqb k key) eqn:E.
  - apply String.eqb_eq in E as ->. intros -> _. by left.
  - intros H1 H2. right. by apply IH.
Qed.

Lemma serialize_arr_occurs indent items x t :
  In x items -> serialize (indent +:+ "  ") x = Some t ->
  exists text, serialize indent (JArr items) = Some text /\ occurs_in t text.
Proof.
  intros Hin Hx. cbn [serialize].
  set (partial := (fix elements (l : list json) : list string := _) items).
  assert (In t partial) as Ht.
  { subst partial. induction items as [|y rest IH]; [done|].
    destruct Hin as [->|Hin]; [left; by rewrite Hx | right; by apply IH]. }
  destruct partial as [|t0 rest] eqn:E; [done|].
  eexists. split; [reflexivity|].
  do 3 apply occurs_in_app_r. apply occurs_in_app_l. by apply occurs_in_join.
Qed.

Lemma serialize_arr_some indent items :
  exists text, serialize indent (JArr items) = Some text.
Proof.
  cbn [serialize].
  destruct ((fix elements (l : list json) : list string := _) items); eauto.
Qed.

Lemma serialize_obj_occurs indent props k x t :
  In (k, x) props -> serialize (indent +:+ "  ") x = Some t ->
  exists text, serialize indent (JObj props) = Some text /\
               occurs_in (QuoteJSONString k +:+ ": " +:+ t) text.
Proof.
  intros Hin Hx. cbn [serialize].
  set (partial := (fix members (l : list (string * json)) : list string := _) props).
  assert (In (QuoteJSONString k +:+ ": " +:+ t) partial) as Ht.
  { subst partial. induction props as [|[k' y] rest IH]; [done|].
    destruct Hin as [[= -> ->]|Hin].
    - rewrite Hx. by left.
    - destruct (serialize _ y); [right|]; by apply IH. }
  destruct partial as [|t0 rest] eqn:E; [done|].
  eexists. split; [reflexivity|].
  do 3 apply occurs_in_app_r. apply occurs_in_app_l. by apply occurs_in_join.
Qed.

(** The serializer prints the path of each field as [field_path_text]
    writes it. *)
Lemma field_path_text_serialized f :
  exists t,
    serialize "    " (JArr (map JStr (field_path f))) = Some t /\
    QuoteJSONString "path" +:+ ": " +:+ t = field_path_text f.
Proof. destruct f; eexists; split; vm_compute; reflexivity. Qed.

Lemma message_shows_path iss i f :
  In i iss -> issue_at (field_path f) i ->
  occurs_in (field_path_text f) (message {| issues := iss |}).
Proof.
  intros Hin Hat. unfold message, stringify. simpl issues.
  destruct (field_path_text_serialized f) as (t & Ht & <-).
  apply get_prop_In in Hat; [|done].
  destruct (serialize_obj_occurs "  " i "path" _ t Hat Ht) as (ti & Hti & Hocc).
  destruct (serialize_arr_occurs EmptyString (map JObj iss) (JObj i) ti)
    as (txt & -> & Hocc'); [by apply in_map | done |].
  eapply occurs_in_trans; eassumption.
Qed.

(** ** Where issues sit *)

Lemma located_ret {A} P (a : A) : located P (ret a).
Proof. constructor. Qed.

Lemma located_bind {A B} P (m : Parse A) (k : A -> Parse B) :
  (forall a, appends (k a)) ->
  located P m -> (forall a, located P (k a)) -> located P (bind m k).
Proof.
  intros Hk Hm Hka. unfold located. rewrite bind_nil by done. simpl.
  apply Forall_app. split; [apply Hm | apply Hka].
Qed.

Lemma makeIssue_at path d :
  get_prop JUndefined d "path" = JUndefined -> issue_at path (makeIssue path d).
Proof.
  intros Hd. unfold issue_at, makeIssue. rewrite Hd, app_nil_r.
  destruct (get_prop JUndefined d "message");
    (rewrite get_set_prop_ne by done); by rewrite get_set_prop_eq.
Qed.

Lemma located_addIssue path d :
  get_prop JUndefined d "path" = JUndefined ->
  located (issue_at path) (addIssueToContext path d).
Proof. intros Hd. repeat constructor. by apply makeIssue_at. Qed.

Lemma located_ZodString_checks path s checks dirty :
  located (issue_at path) (ZodString_checks path s checks dirty).
Proof.
  revert dirty. induction checks as [|[v m] rest IH]; intros dirty; simpl.
  - apply located_ret.
  - destruct (length_of s <? v); [|apply IH].
    apply located_bind; [auto with zod | by apply located_addIssue | intros; apply IH].
Qed.

Lemma located_ZodNumber_checks path n checks dirty :
  located (issue_at path) (ZodNumber_checks path n checks dirty).
Proof.
  revert dirty. induction checks as [|[v incl m|m] rest IH]; intros dirty; simpl.
  - apply located_ret.
  - destruct (if incl then _ else _); [|apply IH].
    apply located_bind; [auto with zod | by apply located_addIssue | intros; apply IH].
  - destruct (negb _); [|apply IH].
    apply located_bind; [auto with zod | by apply located_addIssue | intros; apply IH].
Qed.

(** Every issue of a string, number or enum schema sits at the path of the
    value it parses. *)
Lemma located_leaf schema path data :
  (forall shape, schema <> ZodObject shape) ->
  located (issue_at path) (_parse schema path data).
Proof.
  intros Hleaf. destruct schema as [checks|coerce checks|values|shape].
  - destruct data; simpl;
      try (apply located_bind; [auto with zod | by apply located_addIssue
                               | intros; apply located_ret]).
    apply located_bind; [auto with zod | apply located_ZodString_checks
                        | intros; apply located_ret].
  - simpl. unfold ZodNumber_parse.
    destruct (if coerce then _ else _) as [| |n|]; simpl;
      try (apply located_bind; [auto with zod | by apply located_addIssue
                               | intros; apply located_ret]).
    destruct (Js.isNaN n).
    + apply located_bind; [auto with zod | by apply located_addIssue
                          | intros; apply located_ret].
    + apply located_bind; [auto with zod | apply located_ZodNumber_checks
                          | intros; apply located_ret].
  - destruct data as [|s| |]; simpl;
      try (apply located_bind; [auto with zod | by apply located_addIssue
                               | intros; apply located_ret]).
    destruct (existsb _ _); [apply located_ret|].
    apply located_bind; [auto with zod | by apply located_addIssue
                        | intros; apply located_ret].
  - by destruct (Hleaf shape).
Qed.

(** ** The configuration schema, field by field *)

Lemma field_parse_raw p f :
  field_parse p f =
  match schema_at (field_path f) configSchema with
  | Some schema => _parse schema (field_path f) (field_raw p f) []
  | None => (INVALID, [])
  end.
Proof. by destruct f. Qed.

Lemma parse_database p :
  _parse databaseSchema ["database"] (config_prop (rawConfig p) "database") [] =
  (mergeObjectSync false [] (database_pairs p),
   concat (map (field_issues p) database_fields)).
Proof.
  unfold databaseSchema, z.object.
  change (config_prop (rawConfig p) "database") with
    (VObject [("host", of_env (env p !! "DATABASE_HOST"));
      ("port", of_env (env p !! "DATABASE_PORT"));
      ("username", of_env (env p !! "DATABASE_USERNAME"));
      ("password", of_env (env p !! "DATABASE_PASSWORD"));
      ("database", of_env (env p !! "DATABASE_NAME"))]).
  by rewrite parse_object.
Qed.

Lemma parse_config p :
  _parse configSchema [] (rawConfig p) [] =
  (mergeObjectSync false [] (config_pairs p),
   concat (map (field_issues p) all_fields)).
Proof.
  unfold configSchema, z.object, rawConfig.
  rewrite parse_object.
  pose proof (parse_database p) as Hd.
  f_equal.
  - unfold config_pairs. cbn [map]. do 4 f_equal.
    unfold key_pair. f_equal. exact (f_equal fst Hd).
  - transitivity (field_issues p f_env ++ field_issues p f_port ++
      snd (_parse databaseSchema ["database"]
             (config_prop (rawConfig p) "database") []) ++ []);
      [reflexivity|].
    rewrite Hd. cbn [snd map concat database_fields all_fields].
    by rewrite !app_nil_r.
Qed.

Lemma config_accepted p :
  accepted (fst (_parse configSchema [] (rawConfig p) [])) = true <->
  forall f, field_ok p f = true.
Proof.
  rewrite parse_config. cbn [fst].
  rewrite mergeObjectSync_accepted. unfold config_pairs.
  rewrite !Forall_cons, Forall_nil. cbn [pair_value leaf_pair].
  rewrite mergeObjectSync_accepted. unfold database_pairs.
  rewrite !Forall_cons, Forall_nil. cbn [pair_value leaf_pair].
  unfold field_ok. split.
  - intros H f. destruct f; tauto.
  - intros H. repeat split; apply H.
Qed.

Lemma assign_always fo key r v :
  String.eqb key "__proto__" = false ->
  assign fo {| pair_key := key; pair_value := r; pair_alwaysSet := true |} v =
  set_prop fo key v.
Proof. intros H. unfold assign. simpl. rewrite H. simpl. by rewrite orb_true_r. Qed.

Lemma field_ok_value p f :
  field_ok p f = true -> fst (field_parse p f) = OK (field_value p f).
Proof.
  unfold field_ok, field_value. by destruct (fst (field_parse p f)).
Qed.

Lemma config_result p :
  (forall f, field_ok p f = true) ->
  _parse configSchema [] (rawConfig p) [] = (OK (config_of p), []).
Proof.
  intros Hok.
  pose proof (sound_parse configSchema [] (rawConfig p)) as Hs.
  pose proof (proj2 (config_accepted p) Hok) as Hacc.
  apply Hs in Hacc as Hnil.
  rewrite parse_config in *. cbn [fst snd] in *. rewrite Hnil. f_equal.
  unfold config_pairs, database_pairs, leaf_pair.
  rewrite !field_ok_value by done.
  cbn [mergeObjectSync pair_value].
  repeat (rewrite assign_always by reflexivity).
  cbn [mergeObjectSync pair_value finish].
  repeat (rewrite assign_always by reflexivity).
  reflexivity.
Qed.

(** ** A positive integer is at least one *)

Lemma positive_integer_at_least_one n :
  positive_integer n = true -> at_least_one n = true.
Proof.
  unfold positive_integer, at_least_one, Js.lt, Js.le.
  intros [Hpos Hint]%andb_true_iff.
  destruct n as [s|s| |s m e]; try done.
  destruct s.
  { exfalso. change (Js.of_Z 0) with (S754_zero false) in Hpos.
    unfold Js.compare in Hpos. cbn [Js.exponent Js.scaled] in Hpos.
    set (k := Z.min 0 e) in Hpos.
    assert (0 < 2 ^ (e - k)) by (apply Z.pow_pos_nonneg; lia).
    destruct (Z.compare_spec 0 (Zneg m * 2 ^ (e - k))); try done. nia. }
  clear Hpos.
  rewrite of_Z_1. unfold Js.compare.
  cbn [Js.exponent Js.scaled].
  set (k := Z.min (-52) e).
  assert (Zpos 4503599627370496 * 2 ^ (-52 - k) <= Zpos m * 2 ^ (e - k)) as Hle.
    { change (Zpos 4503599627370496) with (2 ^ 52).
      rewrite <- Z.pow_add_r by lia.
      replace (52 + (-52 - k)) with (- k) by lia.
      simpl in Hint. destruct (0 <=? e) eqn:He.
      - apply Z.leb_le in He.
        replace k with (-52) by lia.
        replace (e - -52) with (e + 52) by lia.
        rewrite Z.pow_add_r by lia.
        assert (1 <= 2 ^ e) by (apply Z.pow_le_mono_r with (b := 0); lia).
        change (- -52) with 52. nia.
      - apply Z.leb_gt in He. apply Z.eqb_eq in Hint.
        apply Z.mod_divide in Hint; [|apply Z.pow_nonzero; lia].
        destruct Hint as [q Hq]. rewrite Hq.
        assert (0 < 2 ^ (- e)) by (apply Z.pow_pos_nonneg; lia).
        assert (1 <= q) by nia.
        rewrite <- Z.mul_assoc, <- Z.pow_add_r by lia.
        replace (- e + (e - k)) with (- k) by lia.
        assert (0 < 2 ^ (- k)) by (apply Z.pow_pos_nonneg; lia).
        nia. }
    destruct (Z.compare_spec (Zpos 4503599627370496 * 2 ^ (-52 - k))
                (Zpos m * 2 ^ (e - k))); try done. lia.
Qed.

(** ** The fields of the configuration *)

Lemma env_field_iff p :
  field_ok p f_env = true <->
  exists s, env p !! "NODE_ENV" = Some s /\ allowed_environment s.
Proof.
  unfold field_ok. rewrite field_parse_raw. cbn [field_path schema_at].
  change (accepted (fst (ZodEnum_parse ["development"; "production"] ["env"]
            (of_env (env p !! "NODE_ENV")) [])) = true <->
          exists s, env p !! "NODE_ENV" = Some s /\ allowed_environment s).
  rewrite ZodEnum_accepts. unfold allowed_environment.
  destruct (env p !! "NODE_ENV") as [s|]; simpl.
  - split.
    + intros (s' & Heq & Hin). injection Heq as <-. exists s.
      split; [done|]. destruct Hin as [<-|[<-|[]]]; auto.
    + intros (s' & Heq & Ha). injection Heq as <-. exists s.
      split; [done|]. destruct Ha as [->| ->]; simpl; auto.
  - split; [by intros (? & ? & ?) | by intros (? & ? & ?)].
Qed.

Lemma port_field_iff p :
  field_ok p f_port = true <->
  positive_integer (Number (field_raw p f_port)) = true.
Proof.
  unfold field_ok. rewrite field_parse_raw. apply positive_int_accepts.
Qed.

Lemma dbport_field_iff p :
  field_ok p f_dbport = true <->
  at_least_one (Number (field_raw p f_dbport)) = true.
Proof.
  unfold field_ok. rewrite field_parse_raw. apply min1_number_accepts.
Qed.

Lemma string_field_iff p f :
  string_field f = true ->
  field_ok p f = true <->
  exists s, env p !! field_var f = Some s /\ non_empty s.
Proof.
  intros Hf. unfold field_ok. rewrite field_parse_raw.
  destruct f; try done; cbn [field_path schema_at configSchema databaseSchema];
    (etrans; [apply ZodString_min1_accepts|]); unfold field_raw;
    destruct (env p !! _) as [s|]; simpl;
    (split; intros (s' & Heq & ?); simplify_eq; eauto).
Qed.

Lemma field_value_coerced p f :
  field_ok p f = true -> field_value p f = coerced p f.
Proof.
  intros Hok. apply field_ok_value in Hok. revert Hok.
  generalize (field_value p f). intros v. rewrite field_parse_raw.
  destruct f; cbn [field_path schema_at configSchema databaseSchema coerced].
  - apply ZodEnum_value.
  - apply ZodNumber_coerce_value.
  - apply ZodString_value.
  - apply ZodString_value.
  - apply ZodString_value.
  - apply ZodNumber_coerce_value.
  - apply ZodString_value.
Qed.

Lemma field_schema_some f :
  exists schema, schema_at (field_path f) configSchema = Some schema.
Proof. destruct f; eexists; reflexivity. Qed.

Lemma field_issues_located p f :
  Forall (issue_at (field_path f)) (field_issues p f).
Proof.
  unfold field_issues. rewrite field_parse_raw.
  destruct f; apply located_leaf; done.
Qed.

Lemma field_failed_issue p f :
  field_ok p f = false ->
  exists i, In i (field_issues p f) /\ issue_at (field_path f) i.
Proof.
  intros Hf. pose proof (field_issues_located p f) as Hloc.
  assert (field_issues p f <> []) as Hne.
  { intros Hnil. unfold field_ok, field_issues, field_parse in *.
    destruct (field_schema_some f) as [schema Hs]. rewrite Hs in *.
    apply (sound_parse schema) in Hnil. congruence. }
  destruct (field_issues p f) as [|i rest]; [done|].
  exists i. split; [by left | by inversion Hloc].
Qed.

(** ** The factory *)

Lemma in_all_fields f : In f all_fields.
Proof. destruct f; simpl; tauto. Qed.

Lemma configFactory_returns p :
  (forall f, field_ok p f = true) ->
  configFactory p = (Returns (config_of p), p).
Proof.
  intros Hok. unfold configFactory, safeParse.
  by rewrite (config_result p Hok).
Qed.

Lemma configFactory_throws p f :
  field_ok p f = false ->
  configFactory p =
  (Throws (ConfigException
     ("Configuration file error: " +:+
      Zod.message {| issues := config_issues p |})), p).
Proof.
  intros Hf. unfold configFactory, safeParse.
  pose proof (config_accepted p) as Hacc.
  rewrite parse_config in *. cbn [fst] in Hacc.
  fold (config_issues p).
  destruct (field_failed_issue p f Hf) as (i & Hi & _).
  assert (In i (config_issues p)) as Hin.
  { apply in_concat. exists (field_issues p f). split; [|done].
    apply in_map, in_all_fields. }
  destruct (mergeObjectSync false [] (config_pairs p)) as [|v|v].
  - by destruct (config_issues p).
  - by destruct (config_issues p).
  - rewrite (proj1 Hacc eq_refl f) in Hf. done.
Qed.

Lemma configFactory_cases p :
  (forall f, field_ok p f = true) \/ (exists f, field_ok p f = false).
Proof.
  destruct (forallb (field_ok p) all_fields) eqn:E.
  - left. intros f. rewrite forallb_forall in E. apply E, in_all_fields.
  - right. apply not_true_iff_false in E.
    destruct (existsb (fun f => negb (field_ok p f)) all_fields) eqn:E'.
    + apply existsb_exists in E' as (f & _ & Hf). exists f.
      by apply negb_true_iff.
    + exfalso. apply E, forallb_forall. intros f Hin.
      destruct (field_ok p f) eqn:Ef; [done|].
      assert (existsb (fun f => negb (field_ok p f)) all_fields = true);
        [|congruence].
      apply existsb_exists. exists f. by rewrite Ef.
Qed.

Lemma field_issue_in_config p f i :
  In i (field_issues p f) -> In i (config_issues p).
Proof.
  intros Hi. apply in_concat. exists (field_issues p f). split; [|done].
  apply in_map, in_all_fields.
Qed.

Lemma configFactory_returns_inv p config :
  configFactory p = (Returns config, p) ->
  (forall f, field_ok p f = true) /\ config = config_of p.
Proof.
  intros Hret. destruct (configFactory_cases p) as [Hok|[f Hf]].
  - split; [done|]. rewrite (configFactory_returns p Hok) in Hret. congruence.
  - rewrite (configFactory_throws p f Hf) in Hret. done.
Qed.

(** ** Finding an occurrence *)

Lemma strip_prefix_sound pre s rest :
  strip_prefix pre s = Some rest -> s = pre +:+ rest.
Proof.
  revert s. induction pre as [|a pre IH]; intros s; simpl.
  - by intros [= <-].
  - destruct s as [|b s]; [done|].
    destruct (Ascii.eqb a b) eqn:E; [|done].
    apply Ascii.eqb_eq in E as ->. intros H. by rewrite (IH _ H).
Qed.

Lemma find_occurrence_sound sub s before after :
  find_occurrence sub s = Some (before, after) -> occurs_in sub s.
Proof.
  revert before after. induction s as [|c rest IH]; intros before after; simpl.
  - destruct (strip_prefix sub EmptyString) as [r|] eqn:E; [|done].
    intros _. exists EmptyString, r. exact (strip_prefix_sound _ _ _ E).
  - destruct (strip_prefix sub (String c rest)) as [r|] eqn:E.
    + intros _. exists EmptyString, r. exact (strip_prefix_sound _ _ _ E).
    + destruct (find_occurrence sub rest) as [[b a]|]; [|done].
      intros _. destruct (IH b a eq_refl) as (b' & a' & ->).
      by exists (String c b'), a'.
Qed.

Lemma field_path_text_names_field f :
  occurs_in (field_name_text f) (field_path_text f).
Proof.
  destruct f;
    match goal with
    | |- occurs_in ?sub ?s =>
        let r := eval vm_compute in (find_occurrence sub s) in
        match r with
        | Some (?b, ?a) =>
            apply (find_occurrence_sound sub s b a); vm_compute; reflexivity
        end
    end.
Qed.

Lemma missing_field_fails p f :
  env p !! field_var f = None -> field_ok p f = false.
Proof.
  intros H. unfold field_ok. rewrite field_parse_raw. unfold field_raw.
  rewrite H. by destruct f.
Qed.

(** ** Decimal numerals *)

Lemma digits2_pos_size p : digits2_pos p = Pos.size p.
Proof. induction p; simpl; congruence. Qed.

Lemma iter_xO_mul p k : Zpos (Pos.iter xO p k) = Zpos p * 2 ^ Zpos k.
Proof.
  induction k using Pos.peano_ind.
  - simpl. lia.
  - rewrite Pos.iter_succ, Pos2Z.inj_succ, Z.pow_succ_r by lia.
    rewrite Pos2Z.inj_xO, IHk. lia.
Qed.

Lemma iter_xO_digits p k :
  Zpos (digits2_pos (Pos.iter xO p k)) = Zpos (digits2_pos p) + Zpos k.
Proof.
  induction k using Pos.peano_ind.
  - simpl. lia.
  - rewrite Pos.iter_succ. simpl digits2_pos. lia.
Qed.

Lemma digits2_pos_bound p :
  Zpos p < 2 ^ 53 -> Zpos (digits2_pos p) <= 53.
Proof.
  intros Hp. rewrite digits2_pos_size.
  pose proof (Pos.size_le p) as Hle.
  assert (2 ^ Zpos (Pos.size p) <= 2 * Zpos p) as H.
  { rewrite <- Pos2Z.inj_pow. change (2 * Zpos p) with (Zpos p~0). lia. }
  destruct (Z_le_gt_dec (Zpos (Pos.size p)) 53) as [|Hgt]; [done|].
  assert (2 ^ 54 <= 2 ^ Zpos (Pos.size p)) by (apply Z.pow_le_mono_r; lia).
  change (2 ^ 54) with (2 * 2 ^ 53) in *. lia.
Qed.

(** An integer literal below [2 ^ 53] is represented exactly. *)
Lemma of_Z_small p :
  Zpos p < 2 ^ 53 ->
  exists m e, Js.of_Z (Zpos p) = S754_finite false m e /\
              -52 <= e <= 0 /\ Zpos m = Zpos p * 2 ^ (- e).
Proof.
  intros Hp. pose proof (digits2_pos_bound p Hp) as Hd.
  unfold Js.of_Z, binary_normalize, binary_round.
  set (d := Zpos (digits2_pos p)) in *.
  assert (fexp Js.prec Js.emax (d + 0) = d - 53) as Hfexp.
  { unfold fexp, emin, Js.prec, Js.emax. lia. }
  rewrite Hfexp. unfold shl_align.
  destruct (d - 53 - 0) as [|k|k] eqn:Hk; try lia.
  - (* d = 53 *)
    exists p, 0. split; [|split; [lia|simpl; lia]].
    unfold binary_round_aux, shr_fexp. cbn [Zdigits2 shr_record_of_loc].
    fold d. replace (fexp Js.prec Js.emax (d + 0) - 0) with 0 by lia.
    cbn [shr shr_m loc_of_shr_record round_nearest_even Zdigits2].
    fold d. replace (fexp Js.prec Js.emax (d + 0) - 0) with 0 by lia.
    cbn [shr shr_m]. reflexivity.
  - exists (Pos.iter xO p k), (d - 53).
    assert (Zpos (digits2_pos (Pos.iter xO p k)) = 53) as Hd'.
    { rewrite iter_xO_digits. fold d. lia. }
    split; [|split; [lia|]].
    + unfold binary_round_aux, shr_fexp. cbn [Zdigits2 shr_record_of_loc].
      rewrite Hd'.
      replace (fexp Js.prec Js.emax (53 + (d - 53)) - (d - 53)) with 0
        by (unfold fexp, emin, Js.prec, Js.emax; lia).
      cbn [shr shr_m loc_of_shr_record round_nearest_even Zdigits2].
      rewrite Hd'.
      replace (fexp Js.prec Js.emax (53 + (d - 53)) - (d - 53)) with 0
        by (unfold fexp, emin, Js.prec, Js.emax; lia).
      cbn [shr shr_m].
      replace (d - 53 <=? Js.emax - Js.prec) with true; [done|].
      symmetry. apply Z.leb_le. unfold Js.emax, Js.prec. lia.
    + rewrite iter_xO_mul. f_equal. f_equal. lia.
Qed.

Lemma of_Z_positive_integer n :
  0 < n < 2 ^ 53 -> positive_integer (Js.of_Z n) = true.
Proof.
  intros [Hpos Hlt]. destruct n as [|p|p]; try lia.
  destruct (of_Z_small p Hlt) as (m & e & -> & He & Hm).
  unfold positive_integer. apply andb_true_iff. split.
  - change (Js.of_Z 0) with (S754_zero false).
    unfold Js.lt, Js.compare. cbn [Js.exponent Js.scaled].
    assert (0 < 2 ^ (e - Z.min 0 e)) by (apply Z.pow_pos_nonneg; lia).
    destruct (Z.compare_spec 0 (Zpos m * 2 ^ (e - Z.min 0 e))); try done; lia.
  - unfold Js.isInteger. destruct (0 <=? e) eqn:E; [done|].
    apply Z.eqb_eq. rewrite Hm. apply Z.mod_mul. apply Z.pow_nonzero; lia.
Qed.

Ltac each_digit H :=
  unfold decimal_digit in H; simpl in H;
  repeat (destruct H as [<-|H]); [..|destruct H].

Lemma span_digits_numeral l :
  Forall decimal_digit l -> Js.span_digits 10 l = (map digit_value l, []).
Proof.
  induction 1 as [|c l Hc Hl IH]; [done|].
  cbn [Js.span_digits map]. rewrite IH.
  each_digit Hc; reflexivity.
Qed.

Lemma drop_ws_numeral l : Forall decimal_digit l -> Js.drop_ws l = l.
Proof.
  intros [|c l' Hc Hl]; [done|]. each_digit Hc; reflexivity.
Qed.

Lemma StringTrim_numeral l : Forall decimal_digit l -> Js.StringTrim l = l.
Proof.
  intros Hl. unfold Js.StringTrim. rewrite (drop_ws_numeral l Hl).
  rewrite drop_ws_numeral; [apply rev_involutive|].
  apply List.Forall_rev, Hl.
Qed.

Lemma parse_numeral l :
  l <> [] -> Forall decimal_digit l ->
  Js.parse_StrNumericLiteral l = Some (Js.MV_decimal false (numeral_value l) 0).
Proof.
  intros Hne Hl.
  assert (Js.parse_StrUnsignedDecimalLiteral false l =
          Some (Js.MV_decimal false (numeral_value l) 0)) as Hdec.
  { unfold Js.parse_StrUnsignedDecimalLiteral.
    assert (String.eqb (string_of_list_ascii l) "Infinity" = false) as ->.
    { destruct Hl as [|c l' Hc Hl]; [done|]. each_digit Hc; reflexivity. }
    rewrite (span_digits_numeral l Hl). rewrite app_nil_r.
    destruct l as [|c l']; [done|]. reflexivity. }
  destruct Hl as [|c l' Hc Hl]; [done|].
  destruct l' as [|c2 l''].
  - each_digit Hc; exact Hdec.
  - inversion Hl as [|? ? Hc2 Hl'']; subst.
    each_digit Hc; try exact Hdec.
    each_digit Hc2; exact Hdec.
Qed.

(** A string of decimal digits that denotes a positive integer below
    [2 ^ 53] converts to that integer. *)
Lemma numeral_denotes l n :
  l <> [] -> Forall decimal_digit l -> numeral_value l = n ->
  0 < n < 2 ^ 53 ->
  Js.StringToNumber (string_of_list_ascii l) = Js.of_Z n /\
  positive_integer (Js.StringToNumber (string_of_list_ascii l)) = true.
Proof.
  intros Hne Hl Hn Hrange.
  assert (Js.StringToNumber (string_of_list_ascii l) = Js.of_Z n) as ->.
  { unfold Js.StringToNumber.
    rewrite list_ascii_of_string_of_list_ascii, (StringTrim_numeral l Hl).
    rewrite (parse_numeral l Hne Hl), Hn.
    unfold Js.RoundMVResult, Js.round_decimal.
    destruct (n <=? 0) eqn:E0; [apply Z.leb_le in E0; lia|].
    cbn [Z.leb Z.compare].
    assert (Z.log2 n < 53) by (apply Z.log2_lt_pow2; lia).
    destruct (1100 <? Z.log2 n + 3 * 0) eqn:E1; [apply Z.ltb_lt in E1; lia|].
    unfold Js.of_Z. f_equal. lia. }
  split; [done|]. by apply of_Z_positive_integer.
Qed.

Lemma numeral_denotes_example :
  Js.StringToNumber "5432" = Js.of_Z 5432 /\
  positive_integer (Js.StringToNumber "5432") = true.
Proof.
  apply (numeral_denotes ["5"; "4"; "3"; "2"]%char 5432).
  - discriminate.
  - repeat constructor; unfold decimal_digit; simpl; tauto.
  - reflexivity.
  - lia.
Qed.

(** * The claims *)

(** C1. For every environment in which NODE_ENV is [development] or
    [production], PORT and DATABASE_PORT convert to positive integers and the
    four database strings are not empty, [configFactory] returns, and every
    field of the configuration is the value read for it, converted by
    [Number] for the two ports. In particular, when the two ports are
    written as decimal numerals of positive integers below [2 ^ 53], the
    ports of the configuration are these integers; on the example of the
    specification they are 3000 and 5432. *)
Theorem valid_environment_loads :
  (forall (p : Process) (e po h dp u pw d : string),
     env p !! "NODE_ENV" = Some e ->
     env p !! "PORT" = Some po ->
     env p !! "DATABASE_HOST" = Some h ->
     env p !! "DATABASE_PORT" = Some dp ->
     env p !! "DATABASE_USERNAME" = Some u ->
     env p !! "DATABASE_PASSWORD" = Some pw ->
     env p !! "DATABASE_NAME" = Some d ->
     allowed_environment e ->
     positive_integer (Js.StringToNumber po) = true ->
     positive_integer (Js.StringToNumber dp) = true ->
     non_empty h -> non_empty u -> non_empty pw -> non_empty d ->
     configFactory p =
     (Returns (mkConfig e (Js.StringToNumber po) h d pw
                 (Js.StringToNumber dp) u), p)) /\
  (forall (p : Process) (e h u pw d : string) (po dp : list ascii),
     env p !! "NODE_ENV" = Some e ->
     env p !! "PORT" = Some (string_of_list_ascii po) ->
     env p !! "DATABASE_HOST" = Some h ->
     env p !! "DATABASE_PORT" = Some (string_of_list_ascii dp) ->
     env p !! "DATABASE_USERNAME" = Some u ->
     env p !! "DATABASE_PASSWORD" = Some pw ->
     env p !! "DATABASE_NAME" = Some d ->
     allowed_environment e ->
     po <> [] -> Forall decimal_digit po -> 0 < numeral_value po < 2 ^ 53 ->
     dp <> [] -> Forall decimal_digit dp -> 0 < numeral_value dp < 2 ^ 53 ->
     non_empty h -> non_empty u -> non_empty pw -> non_empty d ->
     configFactory p =
     (Returns (mkConfig e (Js.of_Z (numeral_value po)) h d pw
                 (Js.of_Z (numeral_value dp)) u), p)) /\
  configFactory example_process =
  (Returns (mkConfig "development" (Js.of_Z 3000) "localhost" "postgres"
              "postgres" (Js.of_Z 5432) "postgres"), example_process).
Proof.
  assert (forall (p : Process) (e po h dp u pw d : string),
     env p !! "NODE_ENV" = Some e ->
     env p !! "PORT" = Some po ->
     env p !! "DATABASE_HOST" = Some h ->
     env p !! "DATABASE_PORT" = Some dp ->
     env p !! "DATABASE_USERNAME" = Some u ->
     env p !! "DATABASE_PASSWORD" = Some pw ->
     env p !! "DATABASE_NAME" = Some d ->
     allowed_environment e ->
     positive_integer (Js.StringToNumber po) = true ->
     positive_integer (Js.StringToNumber dp) = true ->
     non_empty h -> non_empty u -> non_empty pw -> non_empty d ->
     configFactory p =
     (Returns (mkConfig e (Js.StringToNumber po) h d pw
                 (Js.StringToNumber dp) u), p)) as General.
  { intros p e po h dp u pw d He Hpo Hh Hdp Hu Hpw Hd Ae Ppo Pdp Nh Nu Npw Nd.
    assert (forall f, field_ok p f = true) as Hok.
    { intros f. destruct f.
      - apply env_field_iff. eauto.
      - apply port_field_iff. unfold field_raw, field_var. by rewrite Hpo.
      - apply string_field_iff; [done|]. eauto.
      - apply string_field_iff; [done|]. eauto.
      - apply string_field_iff; [done|]. eauto.
      - apply dbport_field_iff, positive_integer_at_least_one.
        unfold field_raw, field_var. by rewrite Hdp.
      - apply string_field_iff; [done|]. eauto. }
    rewrite (configFactory_returns p Hok). unfold config_of, mkConfig.
    rewrite !field_value_coerced by done.
    unfold coerced, field_raw, field_var.
    by rewrite He, Hpo, Hh, Hdp, Hu, Hpw, Hd. }
  split; [exact General|]. split.
  - intros p e h u pw d po dp He Hpo Hh Hdp Hu Hpw Hd Ae
      Npo Dpo Rpo Ndp Ddp Rdp Nh Nu Npw Nd.
    destruct (numeral_denotes po _ Npo Dpo eq_refl Rpo) as [Epo Ppo].
    destruct (numeral_denotes dp _ Ndp Ddp eq_refl Rdp) as [Edp Pdp].
    rewrite <- Epo, <- Edp. by apply General.
  - rewrite (General example_process "development" "3000" "localhost" "5432"
               "postgres" "postgres" "postgres");
      try (by vm_compute); try (by left); done.
Qed.

Lemma valid_environment_loads_witness :
  fst (configFactory example_process) =
  Returns (mkConfig "development" (Js.of_Z 3000) "localhost" "postgres"
             "postgres" (Js.of_Z 5432) "postgres").
Proof.
  rewrite (proj1 (proj2 valid_environment_loads) example_process
             "development" "localhost" "postgres" "postgres" "postgres"
             ["3"; "0"; "0"; "0"]%char ["5"; "4"; "3"; "2"]%char).
  - reflexivity.
  - vm_compute; reflexivity.
  - vm_compute; reflexivity.
  - vm_compute; reflexivity.
  - vm_compute; reflexivity.
  - vm_compute; reflexivity.
  - vm_compute; reflexivity.
  - vm_compute; reflexivity.
  - left; reflexivity.
  - discriminate.
  - repeat constructor; unfold decimal_digit; simpl; tauto.
  - vm_compute; split; reflexivity.
  - discriminate.
  - repeat constructor; unfold decimal_digit; simpl; tauto.
  - vm_compute; split; reflexivity.
  - discriminate.
  - discriminate.
  - discriminate.
  - discriminate.
Defined.

(** C2. The top-level port is accepted exactly when [Number] of it is a
    positive integer, and PORT = [-1] or [abc] makes the factory throw; the
    database port is accepted exactly when [Number] of it is at least one,
    so that DATABASE_PORT = [1.5] is accepted although it is not an
    integer. *)
Theorem database_port_accepts_fraction :
  (forall p, field_ok p f_port = true <->
             positive_integer (Number (field_raw p f_port)) = true) /\
  (forall p, field_ok p f_dbport = true <->
             at_least_one (Number (field_raw p f_dbport)) = true) /\
  (exists msg, configFactory negative_port_process =
                 (Throws (ConfigException msg), negative_port_process)) /\
  (exists msg, configFactory alphabetic_port_process =
                 (Throws (ConfigException msg), alphabetic_port_process)) /\
  positive_integer (Js.StringToNumber "1.5") = false /\
  field_ok fractional_port_process f_dbport = true /\
  exists config,
    configFactory fractional_port_process =
      (Returns config, fractional_port_process) /\
    value_at ["database"; "port"] config = VNumber (Js.StringToNumber "1.5").
Proof.
  split; [exact port_field_iff|]. split; [exact dbport_field_iff|].
  split.
  { eexists. apply (configFactory_throws _ f_port). by vm_compute. }
  split.
  { eexists. apply (configFactory_throws _ f_port). by vm_compute. }
  do 2 (split; [by vm_compute|]).
  eexists. split.
  - apply configFactory_returns. intros f. destruct f; by vm_compute.
  - by vm_compute.
Qed.

(** C3. When a field fails validation, [configFactory] throws a
    [ConfigException] whose message is the prefix followed by the text of the
    issues of all fields: every field that failed has an issue at its path
    and the message shows that path as [field_path_text] writes it, and every
    issue belongs to a field that failed. With NODE_ENV = [staging] and
    DATABASE_PASSWORD not set the message is [staging_message], which
    describes both failures. *)
Theorem all_failures_reported :
  (forall p : Process,
     (exists f, field_ok p f = false) ->
     exists iss,
       configFactory p =
         (Throws (ConfigException
            ("Configuration file error: " +:+
             Zod.message {| issues := iss |})), p) /\
       (forall f, field_ok p f = false ->
          (exists i, In i iss /\ issue_at (field_path f) i) /\
          occurs_in (field_path_text f)
            ("Configuration file error: " +:+
             Zod.message {| issues := iss |})) /\
       (forall i, In i iss ->
          exists f, field_ok p f = false /\ issue_at (field_path f) i)) /\
  configFactory staging_process =
    (Throws (ConfigException staging_message), staging_process).
Proof.
  split; [|vm_compute; reflexivity].
  intros p [f0 Hf0]. exists (config_issues p).
  split; [by apply (configFactory_throws p f0)|]. split.
  - intros f Hf. destruct (field_failed_issue p f Hf) as (i & Hi & Hat).
    pose proof (field_issue_in_config p f i Hi) as Hin.
    split; [by exists i|].
    apply occurs_in_app_r. by apply (message_shows_path _ i).
  - intros i Hin. apply in_concat in Hin as (l & Hl & Hi).
    apply in_map_iff in Hl as (f & <- & _). exists f. split.
    + destruct (field_ok p f) eqn:E; [|done].
      unfold field_ok, field_issues, field_parse in *.
      destruct (field_schema_some f) as [schema Hs]. rewrite Hs in *.
      apply (sound_parse schema) in E. rewrite E in Hi. done.
    + exact (proj1 (List.Forall_forall _ _) (field_issues_located p f) i Hi).
Qed.

Lemma all_failures_reported_witness :
  exists msg,
    fst (configFactory staging_process) = Throws (ConfigException msg) /\
    occurs_in (field_path_text f_env) msg /\
    occurs_in (field_path_text f_password) msg.
Proof.
  destruct (proj1 all_failures_reported staging_process)
    as (iss & Hthrow & Hall & _).
  - exists f_env. vm_compute; reflexivity.
  - eexists. split; [by rewrite Hthrow|]. split.
    + apply (Hall f_env). vm_compute; reflexivity.
    + apply (Hall f_password). vm_compute; reflexivity.
Defined.

(** C4. The [env] field is accepted exactly when NODE_ENV is set to
    [development] or to [production]; with any other value, or none, the
    factory throws a [ConfigException]. *)
Theorem environment_enumerated (p : Process) :
  (field_ok p f_env = true <->
   exists s, env p !! "NODE_ENV" = Some s /\ allowed_environment s) /\
  ((forall s, env p !! "NODE_ENV" = Some s -> ~ allowed_environment s) ->
   exists msg, configFactory p = (Throws (ConfigException msg), p)).
Proof.
  split; [apply env_field_iff|].
  intros Hno. eexists. apply (configFactory_throws p f_env).
  destruct (field_ok p f_env) eqn:E; [|done].
  apply env_field_iff in E as (s & Hs & Ha). by destruct (Hno s Hs).
Qed.

Lemma environment_enumerated_witness :
  exists msg,
    configFactory staging_process =
      (Throws (ConfigException msg), staging_process).
Proof.
  apply (proj2 (environment_enumerated staging_process)).
  intros s Hs [-> | ->]; vm_compute in Hs; discriminate.
Defined.

(** C5. When the variable of a field is not set, [configFactory] throws a
    [ConfigException] whose message shows the path of that field as
    [field_path_text] writes it, and with it the name of the field between
    double quotes. With DATABASE_PASSWORD not set the message is
    [no_password_message]. *)
Theorem missing_key_reported :
  (forall (p : Process) (f : Field),
     env p !! field_var f = None ->
     exists msg,
       configFactory p = (Throws (ConfigException msg), p) /\
       occurs_in (field_path_text f) msg /\
       occurs_in (field_name_text f) msg) /\
  configFactory no_password_process =
    (Throws (ConfigException no_password_message), no_password_process).
Proof.
  split; [|vm_compute; reflexivity].
  intros p f Hmiss. apply missing_field_fails in Hmiss.
  destruct (field_failed_issue p f Hmiss) as (i & Hi & Hat).
  apply field_issue_in_config in Hi.
  eexists. split; [exact (configFactory_throws p f Hmiss)|].
  assert (occurs_in (field_path_text f)
            ("Configuration file error: " +:+
             Zod.message {| issues := config_issues p |})) as Hm.
  { apply occurs_in_app_r. by apply (message_shows_path _ i). }
  split; [done|].
  eapply occurs_in_trans; [apply field_path_text_names_field | exact Hm].
Qed.

Lemma missing_key_reported_witness :
  exists msg,
    configFactory no_password_process =
      (Throws (ConfigException msg), no_password_process) /\
    occurs_in (field_path_text f_password) msg /\
    occurs_in (field_name_text f_password) msg.
Proof.
  apply (proj1 missing_key_reported no_password_process f_password).
  vm_compute; reflexivity.
Defined.

(** C6. Every run of [configFactory] either returns a configuration, and
    then the seven variables are all set, each satisfies the constraint of
    its schema, and each field of the configuration is the value read for it
    (converted by [Number] for the ports), or throws a [ConfigException] and
    returns nothing; no field is ever filled with a default. The constraint
    of the schema on the database port is only that it is at least one: with
    DATABASE_PORT = [1.5] the factory returns a configuration whose database
    port is not a positive integer. *)
Theorem all_or_nothing_fractional_port :
  (forall p : Process,
  (exists e po h d pw dp u : string,
     env p !! "NODE_ENV" = Some e /\
     env p !! "PORT" = Some po /\
     env p !! "DATABASE_HOST" = Some h /\
     env p !! "DATABASE_NAME" = Some d /\
     env p !! "DATABASE_PASSWORD" = Some pw /\
     env p !! "DATABASE_PORT" = Some dp /\
     env p !! "DATABASE_USERNAME" = Some u /\
     allowed_environment e /\
     positive_integer (Js.StringToNumber po) = true /\
     non_empty h /\ non_empty d /\ non_empty pw /\
     at_least_one (Js.StringToNumber dp) = true /\
     non_empty u /\
     configFactory p =
     (Returns (mkConfig e (Js.StringToNumber po) h d pw
                 (Js.StringToNumber dp) u), p)) \/
  (exists msg, configFactory p = (Throws (ConfigException msg), p))) /\
  configFactory fractional_port_process =
    (Returns (mkConfig "development" (Js.of_Z 3000) "localhost" "postgres"
                "postgres" (Js.StringToNumber "1.5") "postgres"),
     fractional_port_process) /\
  positive_integer (Js.StringToNumber "1.5") = false.
Proof.
  split; [|split; vm_compute; reflexivity].
  intros p. destruct (configFactory_cases p) as [Hok|[f Hf]].
  - left.
    destruct (proj1 (env_field_iff p) (Hok f_env)) as (e & He & Ae).
    destruct (proj1 (string_field_iff p f_host eq_refl) (Hok f_host))
      as (h & Hh & Nh).
    destruct (proj1 (string_field_iff p f_database eq_refl) (Hok f_database))
      as (d & Hd & Nd).
    destruct (proj1 (string_field_iff p f_password eq_refl) (Hok f_password))
      as (pw & Hpw & Npw).
    destruct (proj1 (string_field_iff p f_username eq_refl) (Hok f_username))
      as (u & Hu & Nu).
    pose proof (proj1 (port_field_iff p) (Hok f_port)) as Ppo.
    pose proof (proj1 (dbport_field_iff p) (Hok f_dbport)) as Pdp.
    pose proof (missing_field_fails p f_port) as Mpo.
    pose proof (missing_field_fails p f_dbport) as Mdp.
    rewrite (Hok f_port) in Mpo. rewrite (Hok f_dbport) in Mdp.
    cbn [field_var] in Hh, Hd, Hpw, Hu.
    unfold field_raw, field_var in Ppo, Pdp, Mpo, Mdp.
    destruct (env p !! "PORT") as [po|] eqn:Hpo;
      [|by specialize (Mpo eq_refl)].
    destruct (env p !! "DATABASE_PORT") as [dp|] eqn:Hdp;
      [|by specialize (Mdp eq_refl)].
    exists e, po, h, d, pw, dp, u. do 14 (split; [done|]).
    rewrite (configFactory_returns p Hok). unfold config_of, mkConfig.
    rewrite !field_value_coerced by done.
    unfold coerced, field_raw, field_var.
    by rewrite He, Hpo, Hh, Hd, Hpw, Hdp, Hu.
  - right. eexists. apply (configFactory_throws p f Hf).
Qed.

(** C7. Running [configFactory] and then running it again in the process
    the first run left gives the same outcome twice, with equal
    configurations on success, and leaves the process as it was. *)
Theorem configFactory_idempotent (p : Process) :
  let '(first, p1) := configFactory p in
  let '(second, p2) := configFactory p1 in
  first = second /\ p1 = p /\ p2 = p.
Proof.
  assert (snd (configFactory p) = p) as Hp.
  { unfold configFactory. by destruct (safeParse _ _). }
  destruct (configFactory p) as [first p1] eqn:E1. simpl in Hp. subst p1.
  rewrite E1. done.
Qed.

(** C8. Each of host, username, password and database name is accepted
    exactly when its variable is set to a string that is not empty; when one
    of them is set to the empty string the factory throws a
    [ConfigException]. *)
Theorem string_fields_non_empty (p : Process) (f : Field) :
  In f [f_host; f_username; f_password; f_database] ->
  (field_ok p f = true <->
   exists s, env p !! field_var f = Some s /\ non_empty s) /\
  (env p !! field_var f = Some EmptyString ->
   exists msg, configFactory p = (Throws (ConfigException msg), p)).
Proof.
  intros Hin.
  assert (string_field f = true) as Hf.
  { simpl in Hin. destruct Hin as [<-|[<-|[<-|[<-|[]]]]]; done. }
  split; [by apply string_field_iff|].
  intros Hempty. eexists. apply (configFactory_throws p f).
  destruct (field_ok p f) eqn:E; [|done].
  apply (string_field_iff p f Hf) in E as (s & Hs & Hne).
  rewrite Hempty in Hs. injection Hs as <-. done.
Qed.

Lemma string_fields_non_empty_witness :
  exists msg,
    configFactory empty_host_process =
      (Throws (ConfigException msg), empty_host_process).
Proof.
  apply (proj2 (string_fields_non_empty empty_host_process f_host
                  (or_introl eq_refl))).
  vm_compute; reflexivity.
Defined.



(** C10. The outcome of [configFactory] depends only on NODE_ENV, PORT,
    DATABASE_HOST, DATABASE_PORT, DATABASE_USERNAME, DATABASE_PASSWORD and
    DATABASE_NAME: two processes that agree on these seven variables get the
    same outcome. *)
Theorem unrelated_variables_ignored (p q : Process) :
  env p !! "NODE_ENV" = env q !! "NODE_ENV" ->
  env p !! "PORT" = env q !! "PORT" ->
  env p !! "DATABASE_HOST" = env q !! "DATABASE_HOST" ->
  env p !! "DATABASE_PORT" = env q !! "DATABASE_PORT" ->
  env p !! "DATABASE_USERNAME" = env q !! "DATABASE_USERNAME" ->
  env p !! "DATABASE_PASSWORD" = env q !! "DATABASE_PASSWORD" ->
  env p !! "DATABASE_NAME" = env q !! "DATABASE_NAME" ->
  fst (configFactory p) = fst (configFactory q).
Proof.
  intros H1 H2 H3 H4 H5 H6 H7.
  assert (rawConfig p = rawConfig q) as Hraw.
  { unfold rawConfig. by rewrite H1, H2, H3, H4, H5, H6, H7. }
  unfold configFactory. rewrite Hraw. by destruct (safeParse _ _).
Qed.

Lemma unrelated_variables_ignored_witness :
  fst (configFactory noisy_process) = fst (configFactory example_process).
Proof.
  apply (unrelated_variables_ignored noisy_process example_process);
    vm_compute; reflexivity.
Defined.

(** * Further properties of the schemas, the factory and the bootstrap *)

(** ** Objects that the schemas accept *)

Lemma safeParse_success schema data v :
  safeParse schema data = SafeParseSuccess v <->
  fst (_parse schema [] data []) = OK v.
Proof.
  unfold safeParse. destruct (_parse schema [] data []) as [r iss]; simpl.
  destruct r; [destruct iss|destruct iss|]; split; congruence.
Qed.

Lemma assign_defined fo key r a v :
  String.eqb key "__proto__" = false -> v <> VUndefined ->
  assign fo {| pair_key := key; pair_value := r; pair_alwaysSet := a |} v =
  set_prop fo key v.
Proof.
  intros Hk Hv. unfold assign. simpl. rewrite Hk. by destruct v.
Qed.

Lemma string_min1_OK path data v :
  fst (_parse (min 1 z.string) path data []) = OK v <->
  exists s, data = VString s /\ non_empty s /\ v = VString s.
Proof.
  split.
  - intros H. pose proof (ZodString_value _ _ _ _ H) as ->.
    assert (accepted (fst (_parse (min 1 z.string) path data [])) = true) as Ha
      by (by rewrite H).
    apply ZodString_min1_accepts in Ha as (s & -> & Hs). eauto.
  - intros (s & -> & Hs & ->).
    assert (accepted (fst (_parse (min 1 z.string) path (VString s) [])) = true)
      as Ha by (apply ZodString_min1_accepts; eauto).
    destruct (fst (_parse (min 1 z.string) path (VString s) [])) eqn:E; try done.
    by rewrite (ZodString_value _ _ _ _ E).
Qed.

Lemma number_min1_OK path data v :
  fst (_parse (min 1 z.coerce.number) path data []) = OK v <->
  at_least_one (Number data) = true /\ v = VNumber (Number data).
Proof.
  split.
  - intros H. pose proof (ZodNumber_coerce_value _ _ _ _ H) as ->.
    split; [|done]. apply (min1_number_accepts path). by rewrite H.
  - intros [Hn ->]. apply (min1_number_accepts path) in Hn.
    destruct (fst (_parse (min 1 z.coerce.number) path data [])) eqn:E; try done.
    by rewrite (ZodNumber_coerce_value _ _ _ _ E).
Qed.

Lemma number_positive_int_OK path data v :
  fst (_parse (int (positive z.coerce.number)) path data []) = OK v <->
  positive_integer (Number data) = true /\ v = VNumber (Number data).
Proof.
  split.
  - intros H. pose proof (ZodNumber_coerce_value _ _ _ _ H) as ->.
    split; [|done]. apply (positive_int_accepts path). by rewrite H.
  - intros [Hn ->]. apply (positive_int_accepts path) in Hn.
    destruct (fst (_parse (int (positive z.coerce.number)) path data [])) eqn:E;
      try done.
    by rewrite (ZodNumber_coerce_value _ _ _ _ E).
Qed.

Lemma enum_OK path data v :
  fst (_parse environmentSchema path data []) = OK v <->
  exists s, data = VString s /\ allowed_environment s /\ v = VString s.
Proof.
  change (_parse environmentSchema path data [])
    with (ZodEnum_parse ["development"; "production"] path data []).
  split.
  - intros H. pose proof (ZodEnum_value _ _ _ _ H) as ->.
    assert (accepted (fst (ZodEnum_parse ["development"; "production"] path
                             data [])) = true) as Ha by (by rewrite H).
    apply ZodEnum_accepts in Ha as (s & -> & Hin). exists s.
    split; [done|]. split; [|done].
    destruct Hin as [<-|[<-|[]]]; [by left | by right].
  - intros (s & -> & Hs & ->).
    assert (accepted (fst (ZodEnum_parse ["development"; "production"] path
                             (VString s) [])) = true) as Ha.
    { apply ZodEnum_accepts. exists s. split; [done|].
      destruct Hs as [->| ->]; simpl; auto. }
    destruct (fst (ZodEnum_parse _ path (VString s) [])) eqn:E; try done.
    by rewrite (ZodEnum_value _ _ _ _ E).
Qed.

(** The merge of pairs that are all valid, with defined values. *)
Lemma mergeObjectSync_OK_inv dirty fo pairs v :
  mergeObjectSync dirty fo pairs = OK v ->
  Forall (fun p => exists w, pair_value p = OK w) pairs.
Proof.
  revert dirty fo. induction pairs as [|p rest IH]; intros dirty fo; simpl.
  - constructor.
  - destruct (pair_value p) as [|w|w] eqn:E; [done| |].
    + intros H. pose proof (mergeObjectSync_accepted true (assign fo p w) rest)
        as Hacc. rewrite H in Hacc. simpl in Hacc.
      by destruct (proj1 Hacc eq_refl).
    + intros H. constructor; [eauto|]. by apply (IH _ _ H).
Qed.

Lemma database_parse_unfold path dprops :
  fst (_parse databaseSchema path (VObject dprops) []) =
  mergeObjectSync false []
    [{| pair_key := "host";
        pair_value := fst (_parse (min 1 z.string) (path ++ ["host"])
                             (get_prop VUndefined dprops "host") []);
        pair_alwaysSet := has_prop dprops "host" |};
     {| pair_key := "database";
        pair_value := fst (_parse (min 1 z.string) (path ++ ["database"])
                             (get_prop VUndefined dprops "database") []);
        pair_alwaysSet := has_prop dprops "database" |};
     {| pair_key := "password";
        pair_value := fst (_parse (min 1 z.string) (path ++ ["password"])
                             (get_prop VUndefined dprops "password") []);
        pair_alwaysSet := has_prop dprops "password" |};
     {| pair_key := "port";
        pair_value := fst (_parse (min 1 z.coerce.number) (path ++ ["port"])
                             (get_prop VUndefined dprops "port") []);
        pair_alwaysSet := has_prop dprops "port" |};
     {| pair_key := "username";
        pair_value := fst (_parse (min 1 z.string) (path ++ ["username"])
                             (get_prop VUndefined dprops "username") []);
        pair_alwaysSet := has_prop dprops "username" |}].
Proof. unfold databaseSchema, z.object. by rewrite parse_object. Qed.

Lemma database_parse_OK path dprops v :
  fst (_parse databaseSchema path (VObject dprops) []) = OK v <->
  exists h d pw n u,
    database_valid dprops h d pw n u /\ v = mkDatabase h d pw n u.
Proof.
  rewrite database_parse_unfold. split.
  - intros H. pose proof (mergeObjectSync_OK_inv _ _ _ _ H) as Hall.
    apply Forall_cons in Hall as [[w1 H1] Hall].
    apply Forall_cons in Hall as [[w2 H2] Hall].
    apply Forall_cons in Hall as [[w3 H3] Hall].
    apply Forall_cons in Hall as [[w4 H4] Hall].
    apply Forall_cons in Hall as [[w5 H5] _].
    cbn [pair_value] in *.
    rewrite H1, H2, H3, H4, H5 in H.
    apply string_min1_OK in H1 as (h & Hh & Nh & ->).
    apply string_min1_OK in H2 as (d & Hd & Nd & ->).
    apply string_min1_OK in H3 as (pw & Hpw & Npw & ->).
    apply number_min1_OK in H4 as (Hn & ->).
    apply string_min1_OK in H5 as (u & Hu & Nu & ->).
    cbn [mergeObjectSync pair_value] in H.
    repeat (rewrite assign_defined in H by done).
    cbn [mergeObjectSync finish set_prop String.eqb Ascii.eqb Bool.eqb] in H.
    injection H as <-.
    exists h, d, pw, (Number (get_prop VUndefined dprops "port")), u.
    split; [|reflexivity]. unfold database_valid. tauto.
  - intros (h & d & pw & n & u & Hv & ->).
    destruct Hv as (Hh & Nh & Hd & Nd & Hpw & Npw & -> & Hn & Hu & Nu).
    rewrite (proj2 (string_min1_OK (path ++ ["host"]) _ (VString h)))
      by eauto.
    rewrite (proj2 (string_min1_OK (path ++ ["database"]) _ (VString d)))
      by eauto.
    rewrite (proj2 (string_min1_OK (path ++ ["password"]) _ (VString pw)))
      by eauto.
    rewrite (proj2 (string_min1_OK (path ++ ["username"]) _ (VString u)))
      by eauto.
    rewrite (proj2 (number_min1_OK (path ++ ["port"]) _ _) (conj Hn eq_refl)).
    cbn [mergeObjectSync pair_value].
    repeat (rewrite assign_defined by done).
    reflexivity.
Qed.

Lemma config_parse_unfold props :
  fst (_parse configSchema [] (VObject props) []) =
  mergeObjectSync false []
    [{| pair_key := "env";
        pair_value := fst (_parse environmentSchema ["env"]
                             (get_prop VUndefined props "env") []);
        pair_alwaysSet := has_prop props "env" |};
     {| pair_key := "port";
        pair_value := fst (_parse (int (positive z.coerce.number)) ["port"]
                             (get_prop VUndefined props "port") []);
        pair_alwaysSet := has_prop props "port" |};
     {| pair_key := "database";
        pair_value := fst (_parse databaseSchema ["database"]
                             (get_prop VUndefined props "database") []);
        pair_alwaysSet := has_prop props "database" |}].
Proof. unfold configSchema, z.object. by rewrite parse_object. Qed.

Lemma object_parse_non_object shape path data v :
  (forall props, data <> VObject props) ->
  fst (_parse (ZodObject shape) path data []) <> OK v.
Proof. intros Hno. destruct data; simpl; try done. by destruct (Hno props). Qed.

Lemma config_parse_OK_inv props v :
  fst (_parse configSchema [] (VObject props) []) = OK v ->
  exists e port h d pw n u,
    config_valid props e port h d pw n u /\ v = mkConfig e port h d pw n u.
Proof.
  rewrite config_parse_unfold. intros H.
  pose proof (mergeObjectSync_OK_inv _ _ _ _ H) as Hall.
  apply Forall_cons in Hall as [[we He] Hall].
  apply Forall_cons in Hall as [[wp Hp] Hall].
  apply Forall_cons in Hall as [[wd Hd] _].
  cbn [pair_value] in *.
  destruct (proj1 (enum_OK _ _ _) He) as (e & Hev & Ae & ->).
  destruct (proj1 (number_positive_int_OK _ _ _) Hp) as (Pp & ->).
  destruct (get_prop VUndefined props "database") as [| | |dprops] eqn:Edb;
    try (exfalso; revert Hd; by apply object_parse_non_object).
  destruct (proj1 (database_parse_OK _ _ _) Hd)
    as (h & d & pw & n & u & Hv & ->).
  rewrite He, Hp, Hd in H.
  cbn [mergeObjectSync pair_value] in H.
  repeat (rewrite assign_defined in H by done).
  cbn [mergeObjectSync finish set_prop String.eqb Ascii.eqb Bool.eqb] in H.
  injection H as <-.
  exists e, (Number (get_prop VUndefined props "port")), h, d, pw, n, u.
  split; [|reflexivity]. unfold config_valid. eauto 12.
Qed.

Lemma config_parse_OK props e port h d pw n u :
  config_valid props e port h d pw n u ->
  fst (_parse configSchema [] (VObject props) []) =
  OK (mkConfig e port h d pw n u).
Proof.
  intros (He & Ae & -> & Pp & dprops & Hdb & Hv).
  rewrite config_parse_unfold.
  rewrite (proj2 (enum_OK ["env"] _ (VString e))) by eauto.
  rewrite (proj2 (number_positive_int_OK ["port"] _ _) (conj Pp eq_refl)).
  rewrite Hdb.
  rewrite (proj2 (database_parse_OK ["database"] dprops
                    (mkDatabase h d pw n u))) by eauto 8.
  cbn [mergeObjectSync pair_value].
  repeat (rewrite assign_defined by done).
  reflexivity.
Qed.

(** X1. [databaseSchema.safeParse] succeeds on an object exactly when host,
    database, password and username are non-empty strings and [Number] of
    port is at least one; the data is then the object of these five fields,
    in the order of the schema, with the port converted and every other
    property of the input left out. *)
Theorem databaseSchema_accepts (dprops : list (string * value)) (v : value) :
  safeParse databaseSchema (VObject dprops) = SafeParseSuccess v <->
  exists h d pw n u,
    database_valid dprops h d pw n u /\ v = mkDatabase h d pw n u.
Proof.
  etrans; [apply safeParse_success|]. apply database_parse_OK.
Qed.

(** X2. [configSchema.safeParse] succeeds on an object exactly when env is
    one of the two environments, [Number] of port is a positive integer and
    database is an object that [databaseSchema] accepts; the data is then
    the [Config] of these fields, without any other property of the input. *)
Theorem configSchema_accepts (props : list (string * value)) (v : value) :
  safeParse configSchema (VObject props) = SafeParseSuccess v <->
  exists e port h d pw n u,
    config_valid props e port h d pw n u /\ v = mkConfig e port h d pw n u.
Proof.
  etrans; [apply safeParse_success|]. split.
  - apply config_parse_OK_inv.
  - intros (e & port & h & d & pw & n & u & Hv & ->).
    by apply config_parse_OK.
Qed.

(** X3. Validation is idempotent: the data of a successful
    [configSchema.safeParse] is accepted again and comes back unchanged. *)
Theorem configSchema_revalidates (data v : value) :
  safeParse configSchema data = SafeParseSuccess v ->
  safeParse configSchema v = SafeParseSuccess v.
Proof.
  rewrite !safeParse_success. intros H.
  destruct data as [| | |props];
    try (exfalso; revert H; by apply object_parse_non_object).
  apply config_parse_OK_inv in H
    as (e & port & h & d & pw & n & u & Hv & ->).
  destruct Hv as (He & Ae & Hport & Pp & dprops & Hdb & Hd).
  destruct Hd as (Hh & Nh & Hdn & Nd & Hpw & Npw & Hn & Pn & Hu & Nu).
  apply config_parse_OK. unfold config_valid, mkConfig.
  cbn [get_prop String.eqb Ascii.eqb Bool.eqb Number].
  do 4 (split; [done|]). eexists. split; [reflexivity|].
  unfold database_valid.
  cbn [get_prop String.eqb Ascii.eqb Bool.eqb Number]. tauto.
Qed.

Lemma configSchema_revalidates_witness :
  safeParse configSchema
    (mkConfig "development" (Js.of_Z 3000) "localhost" "postgres"
       "postgres" (Js.of_Z 5432) "postgres") =
  SafeParseSuccess
    (mkConfig "development" (Js.of_Z 3000) "localhost" "postgres"
       "postgres" (Js.of_Z 5432) "postgres").
Proof.
  apply (configSchema_revalidates (rawConfig example_process)).
  vm_compute; reflexivity.
Defined.





(** The text of the issue a variable that is not set gives: strings and
    the environment are [Required], a port is not a number. *)
Lemma unset_field_issue p f :
  env p !! field_var f = None ->
  exists i,
    field_issues p f = [i] /\
    get_prop JUndefined i "code" = JStr "invalid_type" /\
    get_prop JUndefined i "message" =
      JStr (if port_field f then "Expected number, received nan"
            else "Required").
Proof.
  intros H. unfold field_issues. rewrite field_parse_raw. unfold field_raw.
  rewrite H. destruct f; eexists; (split; [reflexivity|]); split; reflexivity.
Qed.

(** X5. A variable that is not set is reported with code [invalid_type] at
    the path of its field: with the message [Required] for the environment
    and the four strings, but with [Expected number, received nan] for the
    two ports, which are converted by [Number] before they are checked. *)
Theorem unset_variable_message (p : Process) (f : Field) :
  env p !! field_var f = None ->
  exists iss i,
    configFactory p =
      (Throws (ConfigException
         ("Configuration file error: " +:+ Zod.message {| issues := iss |})), p) /\
    In i iss /\ issue_at (field_path f) i /\
    get_prop JUndefined i "code" = JStr "invalid_type" /\
    get_prop JUndefined i "message" =
      JStr (if port_field f then "Expected number, received nan"
            else "Required").
Proof.
  intros Hunset.
  destruct (unset_field_issue p f Hunset) as (i & Hi & Hcode & Hmsg).
  pose proof (missing_field_fails p f Hunset) as Hfail.
  exists (config_issues p), i.
  split; [exact (configFactory_throws p f Hfail)|].
  assert (In i (field_issues p f)) as Hin by (rewrite Hi; by left).
  split; [by apply (field_issue_in_config p f)|].
  split; [|done].
  exact (proj1 (List.Forall_forall _ _) (field_issues_located p f) i Hin).
Qed.

Lemma unset_variable_message_witness :
  exists iss i,
    fst (configFactory no_password_process) =
      Throws (ConfigException
         ("Configuration file error: " +:+ Zod.message {| issues := iss |})) /\
    In i iss /\ get_prop JUndefined i "message" = JStr "Required".
Proof.
  destruct (unset_variable_message no_password_process f_password)
    as (iss & i & H & Hin & _ & _ & Hmsg).
  - vm_compute; reflexivity.
  - exists iss, i. by rewrite H.
Defined.

(** ** White space around a number *)

Lemma list_ascii_of_append a b :
  list_ascii_of_string (a +:+ b) =
  list_ascii_of_string a ++ list_ascii_of_string b.
Proof.
  induction a as [|c a IH]; [done|]. rewrite append_cons. simpl. by rewrite IH.
Qed.

Lemma drop_ws_all l :
  Forall (fun c => Js.is_StrWhiteSpaceChar c = true) l -> Js.drop_ws l = [].
Proof. induction 1 as [|c l Hc _ IH]; simpl; [done | by rewrite Hc]. Qed.

Lemma drop_ws_app_ws ws l :
  Forall (fun c => Js.is_StrWhiteSpaceChar c = true) ws ->
  Js.drop_ws (ws ++ l) = Js.drop_ws l.
Proof. induction 1 as [|c ws Hc _ IH]; simpl; [done | by rewrite Hc]. Qed.

Lemma drop_ws_app_keep l x :
  Js.drop_ws l <> [] -> Js.drop_ws (l ++ x) = Js.drop_ws l ++ x.
Proof.
  induction l as [|c l IH]; simpl; [done|].
  destruct (Js.is_StrWhiteSpaceChar c); [exact IH | done].
Qed.

Lemma drop_ws_head l c r :
  Js.drop_ws l = c :: r -> Js.is_StrWhiteSpaceChar c = false.
Proof.
  induction l as [|a l IH]; simpl; [done|].
  destruct (Js.is_StrWhiteSpaceChar a) eqn:E; [exact IH|].
  by intros [= <- _].
Qed.

Lemma StringTrim_padding ws1 l ws2 :
  Forall (fun c => Js.is_StrWhiteSpaceChar c = true) ws1 ->
  Forall (fun c => Js.is_StrWhiteSpaceChar c = true) ws2 ->
  Js.StringTrim (ws1 ++ l ++ ws2) = Js.StringTrim l.
Proof.
  intros H1 H2. unfold Js.StringTrim. rewrite (drop_ws_app_ws ws1 _ H1).
  destruct (Js.drop_ws l) as [|c r] eqn:E.
  - assert (Js.drop_ws (l ++ ws2) = []) as ->; [|done].
    clear H1. induction l as [|a l IH]; simpl in *.
    + by apply drop_ws_all.
    + destruct (Js.is_StrWhiteSpaceChar a); [by apply IH | done].
  - rewrite drop_ws_app_keep by (by rewrite E). rewrite E.
    rewrite rev_app_distr. f_equal.
    rewrite drop_ws_app_ws; [done|]. by apply List.Forall_rev.
Qed.

Lemma StringToNumber_padding pad1 s pad2 :
  all_whitespace pad1 -> all_whitespace pad2 ->
  Js.StringToNumber (pad1 +:+ s +:+ pad2) = Js.StringToNumber s.
Proof.
  intros H1 H2. unfold Js.StringToNumber.
  by rewrite !list_ascii_of_append, StringTrim_padding.
Qed.

Lemma StringToNumber_blank s :
  all_whitespace s -> Js.StringToNumber s = S754_zero false.
Proof.
  intros H. unfold Js.StringToNumber, Js.StringTrim.
  by rewrite (drop_ws_all _ H).
Qed.

(** ** A field depends on its own variable only *)

Lemma field_var_inj f g : field_var f = field_var g -> f = g.
Proof. destruct f, g; simpl; intros H; try done; discriminate. Qed.

Lemma field_issues_schema p f :
  field_parse p f =
  _parse (field_schema f) (field_path f) (of_env (env p !! field_var f)) [].
Proof. rewrite field_parse_raw. by destruct f. Qed.

Lemma number_parse_depends_on_Number checks path d1 d2 :
  Number d1 = Number d2 ->
  ZodNumber_parse true checks path d1 = ZodNumber_parse true checks path d2.
Proof. intros H. unfold ZodNumber_parse. by rewrite H. Qed.

Lemma port_field_parse_Number p q f :
  port_field f = true ->
  Number (field_raw p f) = Number (field_raw q f) ->
  field_parse p f = field_parse q f.
Proof.
  intros Hf HN. rewrite !field_parse_raw.
  destruct f; try done; cbn [field_path schema_at configSchema databaseSchema
    z.object map get_prop fst snd String.eqb Ascii.eqb Bool.eqb];
    simpl; by rewrite (number_parse_depends_on_Number _ _ _ _ HN).
Qed.

Lemma configFactory_fields p q :
  (forall f, field_parse p f = field_parse q f) ->
  fst (configFactory p) = fst (configFactory q).
Proof.
  intros Hall.
  assert (_parse configSchema [] (rawConfig p) [] =
          _parse configSchema [] (rawConfig q) []) as Hparse.
  { rewrite !parse_config.
    unfold config_pairs, database_pairs, leaf_pair, field_issues, all_fields.
    cbn [map]. by rewrite !Hall. }
  unfold configFactory, safeParse. rewrite Hparse.
  destruct (_parse configSchema [] (rawConfig q) []) as [[|v|v] [|i iss]]; done.
Qed.

(** X6. White space around the value of PORT or of DATABASE_PORT changes
    nothing: the factory gives the same outcome, the same configuration or
    the same error message, as without it. *)
Theorem port_padding_ignored (p : Process) (f : Field) (pad1 s pad2 : string) :
  port_field f = true ->
  env p !! field_var f = Some s ->
  all_whitespace pad1 -> all_whitespace pad2 ->
  fst (configFactory (with_var p (field_var f) (pad1 +:+ s +:+ pad2))) =
  fst (configFactory p).
Proof.
  intros Hf Hs H1 H2. apply configFactory_fields. intros g.
  destruct (decide (field_var g = field_var f)) as [Heq|Hne].
  - apply field_var_inj in Heq as ->.
    apply port_field_parse_Number; [done|].
    unfold field_raw, with_var. cbn [env].
    rewrite lookup_insert_eq, Hs. cbn [of_env Number].
    by apply StringToNumber_padding.
  - rewrite !field_parse_raw. unfold field_raw, with_var. cbn [env].
    by rewrite lookup_insert_ne.
Qed.

Lemma port_padding_ignored_witness :
  fst (configFactory (with_var example_process "PORT" (" " +:+ "3000" +:+ " ")))
  = fst (configFactory example_process).
Proof.
  apply (port_padding_ignored example_process f_port " " "3000" " ").
  - reflexivity.
  - vm_compute; reflexivity.
  - repeat constructor.
  - repeat constructor.
Defined.

Lemma blank_port_issue p f s :
  port_field f = true ->
  env p !! field_var f = Some s -> all_whitespace s ->
  exists i,
    field_issues p f = [i] /\
    get_prop JUndefined i "code" = JStr "too_small" /\
    get_prop JUndefined i "message" =
      JStr (match f with
            | f_port => "Number must be greater than 0"
            | _ => "Number must be greater than or equal to 1"
            end).
Proof.
  intros Hf Hs Hblank. unfold field_issues. rewrite field_issues_schema, Hs.
  destruct f; try done; cbn [field_schema field_path of_env];
    simpl; unfold ZodNumber_parse; cbn [Number];
    rewrite (StringToNumber_blank s Hblank);
    eexists; (split; [reflexivity|]); split; reflexivity.
Qed.

(** X7. A port variable that is set to the empty string or to white space
    converts to 0 and is reported as too small, not as missing or as not a
    number: PORT gets the single issue [Number must be greater than 0] and
    DATABASE_PORT the single issue [Number must be greater than or equal to
    1]. *)
Theorem blank_port_too_small (p : Process) (f : Field) (s : string) :
  port_field f = true ->
  env p !! field_var f = Some s -> all_whitespace s ->
  exists iss i,
    configFactory p =
      (Throws (ConfigException
         ("Configuration file error: " +:+ Zod.message {| issues := iss |})), p) /\
    In i iss /\ issue_at (field_path f) i /\
    field_issues p f = [i] /\
    get_prop JUndefined i "code" = JStr "too_small" /\
    get_prop JUndefined i "message" =
      JStr (match f with
            | f_port => "Number must be greater than 0"
            | _ => "Number must be greater than or equal to 1"
            end).
Proof.
  intros Hf Hs Hblank.
  destruct (blank_port_issue p f s Hf Hs Hblank) as (i & Hi & Hcode & Hmsg).
  assert (In i (field_issues p f)) as Hin by (rewrite Hi; by left).
  assert (field_ok p f = false) as Hfail.
  { destruct (field_ok p f) eqn:E; [|done].
    unfold field_ok, field_issues, field_parse in *.
    destruct (field_schema_some f) as [schema Hsch]. rewrite Hsch in *.
    apply (sound_parse schema) in E. by rewrite E in Hi. }
  exists (config_issues p), i.
  split; [exact (configFactory_throws p f Hfail)|].
  split; [by apply (field_issue_in_config p f)|].
  split; [|done].
  exact (proj1 (List.Forall_forall _ _) (field_issues_located p f) i Hin).
Qed.

Lemma blank_port_too_small_witness :
  exists iss i,
    fst (configFactory (with_var example_process "PORT" EmptyString)) =
      Throws (ConfigException
         ("Configuration file error: " +:+ Zod.message {| issues := iss |})) /\
    In i iss /\
    get_prop JUndefined i "message" = JStr "Number must be greater than 0".
Proof.
  destruct (blank_port_too_small (with_var example_process "PORT" EmptyString)
              f_port EmptyString)
    as (iss & i & H & Hin & _ & _ & _ & Hmsg).
  - reflexivity.
  - vm_compute; reflexivity.
  - constructor.
  - exists iss, i. by rewrite H.
Defined.

Lemma field_issues_bound f path data :
  (length (snd (_parse (field_schema f) path data []))
   <= match f with f_port => 2 | _ => 1 end)%nat.
Proof.
  assert (forall d, (length (snd (_parse (min 1 z.string) path d [])) <= 1)%nat)
    as Hstr.
  { intros d. destruct d as [|s| |]; simpl; try lia.
    unfold bind. simpl. destruct (length_of s <? 1); simpl; lia. }
  destruct f; cbn [field_schema]; try apply Hstr.
  - change (_parse environmentSchema path data [])
      with (ZodEnum_parse ["development"; "production"] path data []).
    destruct data as [|s| |]; try (simpl; lia).
    unfold ZodEnum_parse. destruct (existsb _ _); simpl; lia.
  - simpl. unfold ZodNumber_parse. simpl.
    destruct (Js.isNaN (Number data)); simpl; [lia|].
    unfold bind. simpl.
    destruct (Js.le (Number data) (Js.of_Z 0));
      destruct (Js.isInteger (Number data)); simpl; lia.
  - simpl. unfold ZodNumber_parse. simpl.
    destruct (Js.isNaN (Number data)); simpl; [lia|].
    unfold bind. simpl.
    destruct (Js.lt (Number data) (Js.of_Z 1)); simpl; lia.
Qed.

(** X8. The issues of the error the factory throws are the issues of the
    seven fields one after the other, in the order of the schemas (env,
    port, then host, database, password, port and username of the database)
    and not in the order the factory reads the variables; the issues of a
    field are those of its own schema on its own variable, at most two for
    the top-level port and at most one for any other field, so at most
    eight in all. *)
Theorem issues_in_schema_order (p : Process) :
  (exists f, field_ok p f = false) ->
  let of_field f :=
    snd (_parse (field_schema f) (field_path f)
           (of_env (env p !! field_var f)) []) in
  let iss :=
    of_field f_env ++ of_field f_port ++ of_field f_host ++
    of_field f_database ++ of_field f_password ++ of_field f_dbport ++
    of_field f_username in
  configFactory p =
    (Throws (ConfigException
       ("Configuration file error: " +:+ Zod.message {| issues := iss |})), p) /\
  (forall f, Forall (issue_at (field_path f)) (of_field f)) /\
  (forall f, (length (of_field f)
              <= match f with f_port => 2 | _ => 1 end)%nat) /\
  (length iss <= 8)%nat.
Proof.
  intros [f0 Hf0] of_field iss.
  assert (forall f, of_field f = field_issues p f) as Hof.
  { intros f. unfold of_field, field_issues. by rewrite field_issues_schema. }
  assert (forall f, (length (of_field f)
                     <= match f with f_port => 2 | _ => 1 end)%nat) as Hlen.
  { intros f. apply field_issues_bound. }
  split; [|split; [|split; [exact Hlen|]]].
  - rewrite (configFactory_throws p f0 Hf0). do 4 f_equal.
    unfold iss, config_issues, all_fields. cbn [map concat].
    rewrite !Hof. by rewrite app_nil_r.
  - intros f. rewrite Hof. apply field_issues_located.
  - unfold iss. rewrite !length_app.
    pose proof (Hlen f_env). pose proof (Hlen f_port). pose proof (Hlen f_host).
    pose proof (Hlen f_database). pose proof (Hlen f_password).
    pose proof (Hlen f_dbport). pose proof (Hlen f_username).
    simpl in *. lia.
Qed.

Lemma issues_in_schema_order_witness :
  exists iss,
    fst (configFactory staging_process) =
      Throws (ConfigException
         ("Configuration file error: " +:+ Zod.message {| issues := iss |})) /\
    (length iss <= 8)%nat.
Proof.
  destruct (issues_in_schema_order staging_process) as (H & _ & _ & Hlen).
  - exists f_env. vm_compute; reflexivity.
  - eexists. split; [by rewrite H | exact Hlen].
Defined.

(** X9. When the application serves the configuration the factory returned,
    [bootstrap] logs the environment, the port and the database object, in
    this order, and then listens on the port: the number it listens on is
    [Number] of the variable PORT, a positive integer. *)
Theorem bootstrap_listens_on_validated_port (p : Process) (config : value)
  (nest : NestConfigService) :
  configFactory p = (Returns config, p) ->
  serves nest config ->
  exists e po,
    env p !! "NODE_ENV" = Some e /\ allowed_environment e /\
    env p !! "PORT" = Some po /\
    positive_integer (Js.StringToNumber po) = true /\
    bootstrap {| configService := nest |} =
      [Logger_debug (VString e) "environment";
       Logger_debug (VNumber (Js.StringToNumber po)) "port";
       Logger_debug (config_prop config "database") "database";
       app_listen (VNumber (Js.StringToNumber po))].
Proof.
  intros Hload Hserves.
  destruct (configFactory_returns_inv p config Hload) as [Hok ->].
  destruct (proj1 (env_field_iff p) (Hok f_env)) as (e & He & Ae).
  pose proof (proj1 (port_field_iff p) (Hok f_port)) as Ppo.
  pose proof (missing_field_fails p f_port) as Mpo.
  rewrite (Hok f_port) in Mpo. unfold field_raw, field_var in Ppo, Mpo.
  destruct (env p !! "PORT") as [po|] eqn:Hpo; [|by specialize (Mpo eq_refl)].
  exists e, po. do 4 (split; [done|]).
  unfold bootstrap, ConfigService_get. cbn [configService].
  rewrite (Hserves key_env), (Hserves key_port), (Hserves key_database).
  cbn [key_name config_of config_prop get_prop String.eqb Ascii.eqb Bool.eqb].
  rewrite !field_value_coerced by done.
  unfold coerced, field_raw, field_var. by rewrite He, Hpo.
Qed.

Lemma bootstrap_listens_on_validated_port_witness :
  exists e po,
    bootstrap {| configService := nest_of (config_of example_process) |} =
      [Logger_debug (VString e) "environment";
       Logger_debug (VNumber (Js.StringToNumber po)) "port";
       Logger_debug (config_prop (config_of example_process) "database")
         "database";
       app_listen (VNumber (Js.StringToNumber po))].
Proof.
  destruct (bootstrap_listens_on_validated_port example_process
              (config_of example_process)
              (nest_of (config_of example_process)))
    as (e & po & _ & _ & _ & _ & H).
  - vm_compute; reflexivity.
  - intros key. reflexivity.
  - by exists e, po.
Defined.

Lemma string_field_issues_class p q f :
  string_field f = true ->
  string_class (env p !! field_var f) = string_class (env q !! field_var f) ->
  field_issues p f = field_issues q f.
Proof.
  intros Hf Hclass.
  assert (forall r s, env r !! field_var f = Some s -> non_empty s ->
                      field_issues r f = []) as Hnil.
  { intros r s Hs Hne.
    assert (field_ok r f = true) as Hok by (apply string_field_iff; eauto).
    unfold field_ok, field_issues, field_parse in *.
    destruct (field_schema_some f) as [schema Hsch]. rewrite Hsch in *.
    by apply (sound_parse schema). }
  destruct (env p !! field_var f) as [[|a s]|] eqn:Ep;
    destruct (env q !! field_var f) as [[|b t]|] eqn:Eq; try done.
  - unfold field_issues. by rewrite !field_issues_schema, Ep, Eq.
  - by rewrite (Hnil p _ Ep), (Hnil q _ Eq).
  - unfold field_issues. by rewrite !field_issues_schema, Ep, Eq.
Qed.

Lemma field_ok_issues p f : field_ok p f = true <-> field_issues p f = [].
Proof.
  unfold field_ok, field_issues, field_parse.
  destruct (field_schema_some f) as [schema Hsch]. rewrite Hsch.
  apply (sound_parse schema).
Qed.

(** X10. The message of a failure does not carry the values of the database
    strings: for two processes that agree on NODE_ENV, PORT and DATABASE_PORT
    and in which each of DATABASE_HOST, DATABASE_NAME, DATABASE_PASSWORD and
    DATABASE_USERNAME is unset in both, empty in both or non-empty in both,
    a [ConfigException] of the one is a [ConfigException] of the other with
    the same message. *)
Theorem message_hides_string_values (p q : Process) (msg : string) :
  (forall f, string_field f = false ->
             env p !! field_var f = env q !! field_var f) ->
  (forall f, string_field f = true ->
             string_class (env p !! field_var f) =
             string_class (env q !! field_var f)) ->
  fst (configFactory p) = Throws (ConfigException msg) ->
  fst (configFactory q) = Throws (ConfigException msg).
Proof.
  intros Hsame Hclass Hthrow.
  assert (forall f, field_issues p f = field_issues q f) as Hiss.
  { intros f. destruct (string_field f) eqn:Ef.
    - by apply string_field_issues_class, Hclass.
    - unfold field_issues. by rewrite !field_issues_schema, (Hsame f Ef). }
  assert (config_issues p = config_issues q) as Hcfg.
  { unfold config_issues, all_fields. cbn [map]. by rewrite !Hiss. }
  destruct (configFactory_cases p) as [Hok|[f Hf]].
  - by rewrite (configFactory_returns p Hok) in Hthrow.
  - rewrite (configFactory_throws p f Hf) in Hthrow.
    assert (field_ok q f = false) as Hfq.
    { destruct (field_ok q f) eqn:E; [|done].
      apply field_ok_issues in E. rewrite <- Hiss in E.
      apply field_ok_issues in E. congruence. }
    rewrite (configFactory_throws q f Hfq). by rewrite <- Hcfg.
Qed.

Lemma environment_fails_message p :
  field_ok p f_env = false ->
  exists msg, fst (configFactory p) = Throws (ConfigException msg).
Proof. intros H. eexists. by rewrite (configFactory_throws p f_env H). Qed.

Lemma message_hides_string_values_witness :
  exists msg,
    fst (configFactory staging_process) = Throws (ConfigException msg) /\
    fst (configFactory
           (with_var staging_process "DATABASE_HOST" "db.internal")) =
      Throws (ConfigException msg).
Proof.
  destruct (environment_fails_message staging_process) as [msg Hmsg];
    [vm_compute; reflexivity|].
  exists msg. split; [exact Hmsg|].
  apply (message_hides_string_values staging_process
           (with_var staging_process "DATABASE_HOST" "db.internal") msg).
  - intros f Hf. destruct f; try discriminate Hf; vm_compute; reflexivity.
  - intros f Hf. destruct f; try discriminate Hf; vm_compute; reflexivity.
  - exact Hmsg.
Defined.

Lemma invalid_environment_issue p s :
  env p !! "NODE_ENV" = Some s -> ~ allowed_environment s ->
  exists i,
    field_issues p f_env = [i] /\
    get_prop JUndefined i "code" = JStr "invalid_enum_value" /\
    get_prop JUndefined i "received" = JStr s /\
    get_prop JUndefined i "message" =
      JStr ("Invalid enum value. Expected 'development' | 'production', "
            +:+ "received '" +:+ s +:+ "'").
Proof.
  intros Hs Hno. unfold field_issues. rewrite field_issues_schema.
  cbn [field_var field_schema field_path]. rewrite Hs. cbn [of_env].
  change (_parse environmentSchema ["env"] (VString s) [])
    with (ZodEnum_parse ["development"; "production"] ["env"] (VString s) []).
  unfold ZodEnum_parse.
  assert (existsb (String.eqb s) ["development"; "production"] = false) as ->.
  { destruct (existsb _ _) eqn:E; [|done].
    apply existsb_exists in E as (x & Hin & Hx). apply String.eqb_eq in Hx as <-.
    destruct Hno. destruct Hin as [<-|[<-|[]]]; [by left | by right]. }
  eexists. split; [reflexivity|]. split; [reflexivity|]. split; reflexivity.
Qed.

(** X11. A value of NODE_ENV other than the two environments is reported
    with code [invalid_enum_value] at the path [env], and the issue repeats
    the value: it is its [received] property and it is quoted at the end of
    its message. *)
Theorem invalid_environment_echoed (p : Process) (s : string) :
  env p !! "NODE_ENV" = Some s -> ~ allowed_environment s ->
  exists iss i,
    configFactory p =
      (Throws (ConfigException
         ("Configuration file error: " +:+ Zod.message {| issues := iss |})), p) /\
    In i iss /\ issue_at ["env"] i /\
    get_prop JUndefined i "code" = JStr "invalid_enum_value" /\
    get_prop JUndefined i "received" = JStr s /\
    get_prop JUndefined i "message" =
      JStr ("Invalid enum value. Expected 'development' | 'production', "
            +:+ "received '" +:+ s +:+ "'").
Proof.
  intros Hs Hno.
  destruct (invalid_environment_issue p s Hs Hno)
    as (i & Hi & Hcode & Hrec & Hmsg).
  assert (In i (field_issues p f_env)) as Hin by (rewrite Hi; by left).
  assert (field_ok p f_env = false) as Hfail.
  { destruct (field_ok p f_env) eqn:E; [|done].
    apply field_ok_issues in E. by rewrite E in Hi. }
  exists (config_issues p), i.
  split; [exact (configFactory_throws p f_env Hfail)|].
  split; [by apply (field_issue_in_config p f_env)|].
  split; [|done].
  exact (proj1 (List.Forall_forall _ _) (field_issues_located p f_env) i Hin).
Qed.

Lemma invalid_environment_echoed_witness :
  exists iss i,
    fst (configFactory staging_process) =
      Throws (ConfigException
         ("Configuration file error: " +:+ Zod.message {| issues := iss |})) /\
    In i iss /\ get_prop JUndefined i "received" = JStr "staging".
Proof.
  destruct (invalid_environment_echoed staging_process "staging")
    as (iss & i & H & Hin & _ & _ & Hrec & _).
  - vm_compute; reflexivity.
  - intros [H|H]; discriminate H.
  - exists iss, i. by rewrite H.
Defined.
